(** * scripts/doc-generator.js: category classifier and generation orchestrator

    A shallow embedding of the branching logic of the documentation
    generator: [getDocumentationFolder], [documentFile],
    [documentMultipleFiles], the report of [main] and the statistics of
    [generateDocumentationIndex]; then the collaborator calls,
    [findFilesToDocument] and the dispatch of [main].

    Strings.  A JavaScript string is a sequence of UTF-16 code units.  The
    development covers the strings whose code units are all below 256: the
    Rocq [string] lists those code units, one [ascii] each (Latin-1).  On
    that range [String.prototype.toLowerCase] acts unit by unit (A-Z and
    the accented capitals U+00C0..U+00DE, U+00D7 excepted, move up by 32)
    and stays inside the range. *)

From Stdlib Require Import Ascii String Bool Arith Lia List.
From stdpp Require Import base strings list gmap sorting.

(** ** JavaScript string primitives used by the script *)

Module JS.

Definition is_upper (c : ascii) : bool :=
  let n := nat_of_ascii c in
  ((65 <=? n) && (n <=? 90))
  || ((192 <=? n) && (n <=? 222) && negb (n =? 215)).

Definition lower_unit (c : ascii) : ascii :=
  if is_upper c then ascii_of_nat (nat_of_ascii c + 32) else c.

Fixpoint map_units (f : ascii → ascii) (s : string) : string :=
  match s with
  | EmptyString => EmptyString
  | String c r => String (f c) (map_units f r)
  end.

(** [s.toLowerCase()] *)
Definition toLowerCase (s : string) : string := map_units lower_unit s.

Definition backslash : ascii := ascii_of_nat 92.
Definition slash : ascii := ascii_of_nat 47.

Definition unbackslash (c : ascii) : ascii :=
  if Ascii.eqb c backslash then slash else c.

(** [s.replace(/\\/g, '/')] *)
Definition replace_backslashes (s : string) : string :=
  map_units unbackslash s.

(** [s.split(sep)] for a one-unit separator; never the empty array. *)
Fixpoint split (sep : ascii) (s : string) : list string :=
  match s with
  | EmptyString => [EmptyString]
  | String c r =>
      if Ascii.eqb c sep then EmptyString :: split sep r
      else match split sep r with
           | h :: t => String c h :: t
           | [] => [String c EmptyString]
           end
  end.

(** [s.endsWith(suffix)] *)
Fixpoint endsWith (s suffix : string) : bool :=
  String.eqb s suffix
  || match s with
     | EmptyString => false
     | String _ r => endsWith r suffix
     end.

(** *** Regular expressions, as matchers in continuation style

    A matcher consumes a prefix of the subject and hands the rest to its
    continuation; [test] tries every start position, as an unanchored
    [RegExp.prototype.test] does. *)

Definition matcher := (string → bool) → string → bool.

Fixpoint strip (w s : string) : option string :=
  match w, s with
  | EmptyString, _ => Some s
  | String a w', String b s' => if Ascii.eqb a b then strip w' s' else None
  | String _ _, EmptyString => None
  end.

(** a literal word *)
Definition lit (w : string) : matcher :=
  fun k s => match strip w s with Some r => k r | None => false end.

(** [.] refuses the line terminators; below 256 these are LF and CR *)
Definition is_line_terminator (c : ascii) : bool :=
  Ascii.eqb c (ascii_of_nat 10) || Ascii.eqb c (ascii_of_nat 13).

(** [.*] *)
Fixpoint dot_star (k : string → bool) (s : string) : bool :=
  k s
  || match s with
     | EmptyString => false
     | String c r => negb (is_line_terminator c) && dot_star k r
     end.

(** [c?] *)
Definition opt (c : ascii) : matcher :=
  fun k s =>
    match s with
    | String b r => (Ascii.eqb b c && k r) || k s
    | EmptyString => k s
    end.

(** [$] without the m flag *)
Definition eos (s : string) : bool :=
  match s with EmptyString => true | _ => false end.

Definition anything (_ : string) : bool := true.

Fixpoint test (m : string → bool) (s : string) : bool :=
  m s
  || match s with
     | EmptyString => false
     | String _ r => test m r
     end.

End JS.

(** ** The category classifier *)

Record mapping := { pattern : string → bool; folder : string }.

(** [/\/name\//] *)
Definition segment (name : string) : string → bool :=
  JS.lit "/" (JS.lit name (JS.lit "/" JS.anything)).

(** [/\/app\/.*name\.tsx?$/] *)
Definition app_file (name : string) : string → bool :=
  JS.lit "/app/"
    (JS.dot_star (JS.lit name (JS.lit ".ts" (JS.opt "x"%char JS.eos)))).

Definition folderMappings : list mapping :=
  [ {| pattern := segment "components"; folder := "components" |};
    {| pattern := segment "api"; folder := "api" |};
    {| pattern := segment "hooks"; folder := "hooks" |};
    {| pattern := segment "utils"; folder := "utils" |};
    {| pattern := segment "types"; folder := "types" |};
    {| pattern := segment "lib"; folder := "lib" |};
    {| pattern := segment "services"; folder := "services" |};
    {| pattern := segment "middleware"; folder := "middleware" |};
    {| pattern := segment "pages"; folder := "pages" |};
    {| pattern := app_file "page"; folder := "pages" |};
    {| pattern := app_file "layout"; folder := "layouts" |};
    {| pattern := app_file "loading"; folder := "loading" |};
    {| pattern := app_file "error"; folder := "error" |};
    {| pattern := app_file "not-found"; folder := "error" |} ].

Definition normalize (filePath : string) : string :=
  JS.toLowerCase (JS.replace_backslashes filePath).

(** the [for (const mapping of folderMappings)] loop: first match wins *)
Definition first_match (normalizedPath : string) : option mapping :=
  List.find (fun m => JS.test (pattern m) normalizedPath) folderMappings.

(** the fallback after the loop; a string is truthy when it is not empty *)
Definition fallback (normalizedPath : string) : string :=
  let pathParts := JS.split JS.slash normalizedPath in
  if 1 <? length pathParts then
    let parentFolder := nth (length pathParts - 2) pathParts EmptyString in
    if negb (String.eqb parentFolder EmptyString)
       && negb (String.eqb parentFolder "src")
       && negb (String.eqb parentFolder "app")
    then parentFolder
    else "general"
  else "general".

Definition getDocumentationFolder (filePath : string) : string :=
  let normalizedPath := normalize filePath in
  match first_match normalizedPath with
  | Some m => folder m
  | None => fallback normalizedPath
  end.

(** ** The world the orchestrator runs in

    The file system is a finite map from resolved path names to nodes; the
    trace records every effectful call in the order it was attempted.
    Node's [path] module, [process.cwd()], the environment variable holding
    the API key, the HTTP exchange and the faults of the operating system
    are not code of the script: they are the fields of [env].  The oracles
    [fetch] and [io_fault] are indexed by the length of the trace, so that
    the same call may fail once and succeed later.  [parents p] lists the
    directories above [p]: those [fs.mkdirSync] makes too when it is
    asked to be recursive. *)

Inductive node := File (content : string) | Directory.

Inductive event :=
| Mkdir (path : string)
| Read (path : string)
| Fetch (prompt : string)
| Write (path content : string).

Record world := { nodes : gmap string node; trace : list event }.

Inductive response :=
| Rejected (message : string)
| Status (status statusText : string)
| Body (text : string)
| Unreadable (message : string).

Record env := {
  cwd : string;
  path_join : list string → string;
  path_basename : string → string → string;
  path_extname : string → string;
  resolve : string → string;
  parents : string → list string;
  apiKey : option string;
  DOCUMENTATION_PROMPT : string;
  fetch : nat → string → response;
  io_fault : nat → event → option string }.

(** *** Computations that may throw *)

Inductive outcome (A : Type) :=
| Returned (a : A)
| Thrown (message : string).
Arguments Returned {A} a.
Arguments Thrown {A} message.

Definition M (A : Type) : Type := world → outcome A * world.

Definition ret {A} (a : A) : M A := fun w => (Returned a, w).

Definition throw {A} (message : string) : M A := fun w => (Thrown message, w).

Definition bind {A B} (m : M A) (k : A → M B) : M B :=
  fun w =>
    match m w with
    | (Returned a, w') => k a w'
    | (Thrown message, w') => (Thrown message, w')
    end.

Definition try_catch {A} (m : M A) (handler : string → M A) : M A :=
  fun w =>
    match m w with
    | (Returned a, w') => (Returned a, w')
    | (Thrown message, w') => handler message w'
    end.

Notation "'let!' x ':=' m 'in' k" := (bind m (fun x => k))
  (at level 10, x name, m at level 100, k at level 200).
Notation "'do!' m 'in' k" := (bind m (fun _ => k))
  (at level 10, m at level 100, k at level 200).

Definition when (b : bool) (m : M unit) : M unit := if b then m else ret tt.

Definition clock (w : world) : nat := length (trace w).

Definition record (e : event) (w : world) : world :=
  {| nodes := nodes w; trace := trace w ++ [e] |}.

Definition store (p : string) (n : node) (w : world) : world :=
  {| nodes := <[p := n]> (nodes w); trace := trace w |}.

(** the names [keys] become directories where nothing stands yet *)
Definition make_directories (keys : list string) (w : world) : world :=
  {| nodes :=
       foldr (fun k m =>
                match m !! k with
                | None => <[k := Directory]> m
                | Some _ => m
                end) (nodes w) keys;
     trace := trace w |}.

Definition is_file (w : world) (k : string) : bool :=
  match nodes w !! k with
  | Some (File _) => true
  | _ => false
  end.

Definition nl : string := String (ascii_of_nat 10) EmptyString.
Definition e_acute : string := String (ascii_of_nat 233) EmptyString.
Definition e_grave : string := String (ascii_of_nat 232) EmptyString.

Definition truthy (s : option string) : bool :=
  match s with
  | Some t => negb (String.eqb t EmptyString)
  | None => false
  end.

(** what [documentFile] returns: [{ docPath, skipped }] *)
Record documented := { docPath : string; skipped : bool }.

(** the objects pushed by [documentMultipleFiles]: [docPath] is present on
    the two success shapes, [error] on the failure shape *)
Record result := {
  filePath : string;
  r_docPath : option string;
  error : option string;
  success : bool;
  r_skipped : bool }.

Definition generated_result (f : string) (d : documented) : result :=
  {| filePath := f; r_docPath := Some (docPath d); error := None;
     success := true; r_skipped := false |}.

Definition skipped_result (f : string) (d : documented) : result :=
  {| filePath := f; r_docPath := Some (docPath d); error := None;
     success := true; r_skipped := true |}.

Definition failed_result (f message : string) : result :=
  {| filePath := f; r_docPath := None; error := Some message;
     success := false; r_skipped := false |}.

Section Orchestrator.

Variable E : env.

(** *** [fs] *)

Definition existsSync (p : string) : M bool :=
  fun w => (Returned (bool_decide (is_Some (nodes w !! resolve E p))), w).

(** an attempted effect: logged, then refused when the oracle says so *)
Definition attempt {A} (e : event) (m : M A) : M A :=
  fun w =>
    match io_fault E (clock w) e with
    | Some message => (Thrown message, record e w)
    | None => m (record e w)
    end.

(** [fs.mkdirSync(p, { recursive: true })]: the directory is made
    together with the directories above it that are missing; a file in
    the way is an error *)
Definition mkdirSync (p : string) : M unit :=
  attempt (Mkdir p) (fun w =>
    let above := map (resolve E) (parents E p) in
    if existsb (is_file w) above
    then (Thrown ("ENOTDIR: not a directory, mkdir " +:+ p), w)
    else
      match nodes w !! resolve E p with
      | Some (File _) =>
          (Thrown ("EEXIST: file already exists, mkdir " +:+ p), w)
      | Some Directory => (Returned tt, w)
      | None => (Returned tt, make_directories (resolve E p :: above) w)
      end).

(** [fs.readFileSync(p, 'utf8')] *)
Definition readFileSync (p : string) : M string :=
  attempt (Read p) (fun w =>
    match nodes w !! resolve E p with
    | Some (File content) => (Returned content, w)
    | Some Directory =>
        (Thrown "EISDIR: illegal operation on a directory, read", w)
    | None => (Thrown ("ENOENT: no such file or directory, open " +:+ p), w)
    end).

(** [fs.writeFileSync(p, content, 'utf8')] *)
Definition writeFileSync (p content : string) : M unit :=
  attempt (Write p content) (fun w =>
    match nodes w !! resolve E p with
    | Some Directory =>
        (Thrown ("EISDIR: illegal operation on a directory, open " +:+ p), w)
    | _ => (Returned tt, store (resolve E p) (File content) w)
    end).

(** *** The collaborator *)

Definition prompt (fileContent filePath : string) : string :=
  DOCUMENTATION_PROMPT E +:+ nl +:+ nl
  +:+ "**Fichier:** " +:+ filePath +:+ nl
  +:+ "**Contenu:**" +:+ nl
  +:+ "```" +:+ nl
  +:+ fileContent +:+ nl
  +:+ "```" +:+ nl +:+ nl
  +:+ "G" +:+ e_acute +:+ "n" +:+ e_grave
  +:+ "re la documentation compl" +:+ e_grave +:+ "te pour ce fichier.".

Definition no_api_key : string :=
  "ANTHROPIC_API_KEY non configur" +:+ e_acute +:+ "e. D" +:+ e_acute
  +:+ "finissez la variable d'environnement ou utilisez Claude via Cursor.".

(** the [await fetch(...)] with what the script reads from the response *)
Definition post (body : string) : M string :=
  fun w =>
    let w' := record (Fetch body) w in
    match fetch E (clock w) body with
    | Rejected message => (Thrown message, w')
    | Status status statusText =>
        (Thrown ("Erreur API: " +:+ status +:+ " " +:+ statusText), w')
    | Body text => (Returned text, w')
    | Unreadable message => (Thrown message, w')
    end.

Definition callClaudeAPI (fileContent filePath : string) : M string :=
  if negb (truthy (apiKey E)) then throw no_api_key
  else
    try_catch (post (prompt fileContent filePath))
              (fun message => throw message).

(** [CONFIG.useCursorClaude] is initialised to [false], [CONFIG] is not
    exported and the only assignment in [main] stores [false] again:
    [callClaude] always takes its [else] branch. *)
Definition callClaude (fileContent filePath : string) : M string :=
  callClaudeAPI fileContent filePath.

(** *** [documentFile] *)

Definition docsDirOf (filePath : string) : string :=
  path_join E [cwd E; "docs"; getDocumentationFolder filePath].

Definition docPathOf (filePath : string) : string :=
  let fileName := path_basename E filePath (path_extname E filePath) in
  path_join E [docsDirOf filePath; fileName +:+ ".md"].

Definition not_found (filePath : string) : string :=
  "Fichier non trouv" +:+ e_acute +:+ ": " +:+ filePath.

Definition documentFile (filePath : string) (force : bool) : M documented :=
  try_catch
    (let! present := existsSync filePath in
     do! when (negb present) (throw (not_found filePath)) in
     let docCategory := getDocumentationFolder filePath in
     let docsDir := path_join E [cwd E; "docs"; docCategory] in
     let! made := existsSync docsDir in
     do! when (negb made) (mkdirSync docsDir) in
     let fileName := path_basename E filePath (path_extname E filePath) in
     let docPath := path_join E [docsDir; fileName +:+ ".md"] in
     let! written := existsSync docPath in
     if negb force && written
     then ret {| docPath := docPath; skipped := true |}
     else
       let! fileContent := readFileSync filePath in
       let! documentation := callClaude fileContent filePath in
       do! writeFileSync docPath documentation in
       ret {| docPath := docPath; skipped := false |})
    (fun message => throw message).

(** *** [documentMultipleFiles] *)

(** one turn of the [for] loop: [results.push(...)] in each branch *)
Definition step (force : bool) (results : list result) (f : string)
  : M (list result) :=
  try_catch
    (let! d := documentFile f force in
     if skipped d
     then ret (results ++ [skipped_result f d])
     else ret (results ++ [generated_result f d]))
    (fun message => ret (results ++ [failed_result f message])).

Fixpoint loop (force : bool) (results : list result) (filePaths : list string)
  : M (list result) :=
  match filePaths with
  | [] => ret results
  | f :: rest =>
      let! results' := step force results f in
      loop force results' rest
  end.

Definition documentMultipleFiles (filePaths : list string) (force : bool)
  : M (list result) :=
  loop force [] filePaths.

End Orchestrator.

(** ** The report of [main] *)

Definition successful (results : list result) : list result :=
  List.filter (fun r => success r && negb (r_skipped r)) results.

Definition skipped_ones (results : list result) : list result :=
  List.filter (fun r => success r && r_skipped r) results.

Definition failed (results : list result) : list result :=
  List.filter (fun r => negb (success r)) results.

(** the condition guarding the call of [generateDocumentationIndex] *)
Definition rebuilds_index (results : list result) : bool :=
  (0 <? length (successful results))
  || ((length (successful results) =? 0) && (0 <? length (skipped_ones results))).

(** ** [generateDocumentationIndex]

    The [docs] directory maps entry names to what they are; a folder
    carries the names [fs.readdirSync] lists in it.  The model keeps the
    structure of the index (its sections and the two counts of the
    statistics block), not its text. *)

Inductive entry := Plain | Folder (names : list string).

Definition is_folder (e : string * entry) : bool :=
  match e.2 with Folder _ => true | Plain => false end.

Fixpoint insert_sorted (x : string) (l : list string) : list string :=
  match l with
  | [] => [x]
  | y :: r => if String.leb x y then x :: l else y :: insert_sorted x r
  end.

(** [Array.prototype.sort()] on strings: ascending code units *)
Definition sort (l : list string) : list string :=
  fold_right insert_sorted [] l.

(** [fs.readdirSync(path.join(docsDir, category))] *)
Definition readdirSync (docs : gmap string entry) (category : string)
  : list string :=
  match docs !! category with
  | Some (Folder names) => names
  | _ => []
  end.

Definition markdown (docs : gmap string entry) (category : string)
  : list string :=
  List.filter (fun file => JS.endsWith file ".md") (readdirSync docs category).

Record index := {
  sections : list (string * list string);
  totalFiles : nat;
  categoryCount : nat }.

Definition generateDocumentationIndex (docsDir : option (gmap string entry))
  : option index :=
  match docsDir with
  | None => None
  | Some docs =>
      let categories :=
        sort (map fst (List.filter is_folder (map_to_list docs))) in
      let sections :=
        flat_map
          (fun category =>
             let files := sort (markdown docs category) in
             if 0 <? length files then [(category, files)] else [])
          categories in
      let totalFiles :=
        fold_left
          (fun sum category => sum + length (markdown docs category))
          categories 0 in
      Some {| sections := sections;
              totalFiles := totalFiles;
              categoryCount := length categories |}
  end.

(** ** Notions used to state the properties *)

(** the two separator styles a path may be written in *)
Definition is_separator (c : ascii) : bool :=
  Ascii.eqb c JS.slash || Ascii.eqb c JS.backslash.

(** the segments of a path: what lies between its separators *)
Definition segments (filePath : string) : list string :=
  JS.split JS.slash (normalize filePath).

Fixpoint all_units (P : ascii → bool) (s : string) : bool :=
  match s with
  | EmptyString => true
  | String c r => P c && all_units P r
  end.

Definition no_slash (s : string) : bool :=
  all_units (fun c => negb (Ascii.eqb c JS.slash)) s.

Definition no_upper (s : string) : bool :=
  all_units (fun c => negb (JS.is_upper c)) s.

Definition one_line (s : string) : bool :=
  all_units (fun c => negb (JS.is_line_terminator c)) s.

(** the nine rules of the form [/\/name\//], which come first *)
Definition segment_rules : list mapping := firstn 9 folderMappings.


(** the names the fallback refuses as a category *)
Definition reserved (parentFolder : string) : bool :=
  String.eqb parentFolder EmptyString
  || String.eqb parentFolder "src"
  || String.eqb parentFolder "app".

(** the directories [dirs], each closed by a slash, written one after the
    other: what stands between [/app/] and the file name *)
Definition below (dirs : list string) : string :=
  fold_right (fun d rest => d +:+ "/" +:+ rest) EmptyString dirs.


(** the last segment of a path: the name of the file *)
Definition final_component (filePath : string) : string :=
  List.last (segments filePath) EmptyString.

(** the extensions [findFilesToDocument] collects by default *)
Definition extensions : list string := [".ts"; ".tsx"; ".js"; ".jsx"].

(** the file is called [base], with one of the source extensions *)
Definition named (base filePath : string) : Prop :=
  ∃ ext, In ext extensions ∧ final_component filePath = base +:+ ext.

(** one of the directories above the file is called "app" *)
Definition in_app_tree (filePath : string) : Prop :=
  In "app" (removelast (segments filePath)).

(** the tenth rule *)
Definition page_rule : mapping :=
  {| pattern := app_file "page"; folder := "pages" |}.


(** the three kinds of results, as the report of [main] tells them apart *)
Definition is_generated (r : result) : Prop :=
  success r = true ∧ r_skipped r = false.

Definition is_skipped (r : result) : Prop :=
  success r = true ∧ r_skipped r = true.

Definition is_failure (r : result) : Prop := success r = false.


(** the result pushed for one file, from what [documentFile] did *)
Definition pushed (f : string) (o : outcome documented) : result :=
  match o with
  | Returned d => if skipped d then skipped_result f d else generated_result f d
  | Thrown message => failed_result f message
  end.

(** the batch as a plain recursion: one [documentFile] per path, in order *)
Fixpoint run (E : env) (force : bool) (filePaths : list string) (w : world)
  : list result * world :=
  match filePaths with
  | [] => ([], w)
  | f :: rest =>
      let (o, w1) := documentFile E f force w in
      let (results, w2) := run E force rest w1 in
      (pushed f o :: results, w2)
  end.

(** the path names something in the file system *)
Definition present (E : env) (w : world) (p : string) : Prop :=
  is_Some (nodes w !! resolve E p).

(** nothing that exists in [w] is missing from [w'] *)
Definition extends (w w' : world) : Prop :=
  ∀ k, is_Some (nodes w !! k) → is_Some (nodes w' !! k).

(** a success and a failure are told apart; a skip is a success *)
Definition coherent (r : result) : Prop :=
  (r_skipped r = true → success r = true)
  ∧ (success r = false → r_skipped r = false ∧ is_Some (error r))
  ∧ ¬ (r_skipped r = true ∧ success r = false).



(** *** A weakest-precondition reading of the monad

    [wp m Q w]: running [m] from [w] ends in an outcome and a world that
    satisfy [Q]. *)

Inductive wp {A} (m : M A) (Q : outcome A → world → Prop) (w : world) : Prop :=
| wp_intro : Q (m w).1 (m w).2 → wp m Q w.

(** the file is documented: it exists, and so do its output directory and
    its output file *)
Definition documented_in (E : env) (w : world) (f : string) : Prop :=
  present E w f ∧ present E w (docsDirOf E f) ∧ present E w (docPathOf E f).




(** ** Concrete environments for the examples

    POSIX-like stand-ins for [path.join], [path.basename] and
    [path.extname]; a key is set and no file operation is refused. *)

Definition last_segment (p : string) : string :=
  List.last (JS.split JS.slash p) EmptyString.

(** from the last dot on *)
Fixpoint extension (s : string) : string :=
  match s with
  | EmptyString => EmptyString
  | String c r =>
      match extension r with
      | EmptyString => if Ascii.eqb c "."%char then s else EmptyString
      | later => later
      end
  end.

(** the directories above a slash-separated path, outermost first *)
Fixpoint above_from (prefix parts : list string) : list string :=
  match parts with
  | part :: (_ :: _) as rest =>
      String.concat "/" (prefix ++ [part]) :: above_from (prefix ++ [part]) rest
  | _ => []
  end.

Definition directories_above (p : string) : list string :=
  List.filter (fun d => negb (String.eqb d EmptyString))
              (above_from [] (JS.split JS.slash p)).

Definition without_suffix (s suffix : string) : string :=
  if JS.endsWith s suffix
  then String.substring 0 (String.length s - String.length suffix) s
  else s.

(** the exchange always answers *)
Definition example_env : env :=
  {| cwd := "/repo";
     path_join := String.concat "/";
     path_basename := fun p ext => without_suffix (last_segment p) ext;
     path_extname := fun p => extension (last_segment p);
     resolve := fun p => p;
     parents := directories_above;
     apiKey := Some "sk-test";
     DOCUMENTATION_PROMPT := "Documente ce fichier.";
     fetch := fun _ _ => Body "# Documentation";
     io_fault := fun _ _ => None |}.

(** the exchange is rejected until three effects have been attempted *)
Definition flaky_env : env :=
  {| cwd := "/repo";
     path_join := String.concat "/";
     path_basename := fun p ext => without_suffix (last_segment p) ext;
     path_extname := fun p => extension (last_segment p);
     resolve := fun p => p;
     parents := directories_above;
     apiKey := Some "sk-test";
     DOCUMENTATION_PROMPT := "Documente ce fichier.";
     fetch := fun n _ =>
       if n <? 3 then Rejected "fetch failed" else Body "# Documentation";
     io_fault := fun _ _ => None |}.

Definition example_world : world :=
  {| nodes := {[ "src/components/Card.tsx" := File "export const Card = 1;";
                 "src/weird/Thing.js" := File "module.exports = {};" ]};
     trace := [] |}.


(** the world after [Card.tsx] has been documented *)
Definition after_card : world :=
  (documentMultipleFiles example_env ["src/components/Card.tsx"] false
     example_world).2.

(** the world after a run over both files of [example_world] *)
Definition after_both : world :=
  (documentMultipleFiles example_env
     ["src/components/Card.tsx"; "src/weird/Thing.js"] false
     example_world).2.


(** a [docs] directory in which the category "hooks" holds no markdown
    file, as after a run whose only file for that category failed: the
    directory is made before the collaborator is called *)
Definition docs_with_empty_category : gmap string entry :=
  {[ "api" := Folder ["route.md"; "notes.txt"];
     "hooks" := Folder [];
     "README.md" := Plain ]}.

(** the folders of [docs], in the order the file system lists them *)
Definition folders (docs : gmap string entry) : list string :=
  map fst (List.filter is_folder (map_to_list docs)).

(** the categories that hold at least one markdown file *)
Definition non_empty_categories (docs : gmap string entry) : list string :=
  List.filter (fun category => 0 <? length (markdown docs category))
              (folders docs).


(** every write is refused *)
Definition readonly_env : env :=
  {| cwd := "/repo";
     path_join := String.concat "/";
     path_basename := fun p ext => without_suffix (last_segment p) ext;
     path_extname := fun p => extension (last_segment p);
     resolve := fun p => p;
     parents := directories_above;
     apiKey := Some "sk-test";
     DOCUMENTATION_PROMPT := "Documente ce fichier.";
     fetch := fun _ _ => Body "# Documentation";
     io_fault := fun _ e =>
       match e with
       | Write _ _ => Some "EACCES: permission denied"
       | _ => None
       end |}.


(** ** Further notions, for the properties beyond the classifier's rules *)

Definition no_backslash (s : string) : bool :=
  all_units (fun c => negb (Ascii.eqb c JS.backslash)) s.

(** the endings [.ts] and [.tsx] of two file names never overlap: neither
    name with either ending is a suffix of the other *)
Definition clash (name1 name2 : string) : bool :=
  forallb
    (fun e1 =>
       forallb
         (fun e2 =>
            negb (JS.endsWith (name1 +:+ e1) (name2 +:+ e2))
            && negb (JS.endsWith (name2 +:+ e2) (name1 +:+ e1)))
         [".ts"; ".tsx"])
    [".ts"; ".tsx"].

(** the rules for the special files of an "app" tree, the page rule apart *)
Definition app_rules : list (string * string) :=
  [("layout", "layouts"); ("loading", "loading"); ("error", "error");
   ("not-found", "error")].


(** ** [callCursorClaude]: the answer pasted on the terminal

    [readline] hands the lines typed on standard input to the callback of
    [rl.question], one at a time and without their line end. *)

(** white space for [String.prototype.trim], below 256: TAB, LF, VT, FF,
    CR, SPACE and NO-BREAK SPACE *)
Definition is_white_space (c : ascii) : bool :=
  let n := nat_of_ascii c in
  ((9 <=? n) && (n <=? 13)) || (n =? 32) || (n =? 160).

Fixpoint trimStart (s : string) : string :=
  match s with
  | EmptyString => EmptyString
  | String c r => if is_white_space c then trimStart r else s
  end.

Fixpoint trimEnd (s : string) : string :=
  match s with
  | EmptyString => EmptyString
  | String c r =>
      match trimEnd r with
      | EmptyString =>
          if is_white_space c then EmptyString else String c EmptyString
      | kept => String c kept
      end
  end.

(** [s.trim()] *)
Definition trim (s : string) : string := trimEnd (trimStart s).

(** the recursion of [collectInput] over the lines still to come; [None]
    when the input ends before a line says END: the promise is never
    resolved *)
Fixpoint collectInput (documentation : string) (lines : list string)
  : option string :=
  match lines with
  | [] => None
  | line :: rest =>
      if String.eqb (trim line) "END" then Some documentation
      else collectInput (documentation +:+ line +:+ nl) rest
  end.

(** what [callCursorClaude] resolves to, from the lines typed *)
Definition callCursorClaude (lines : list string) : option string :=
  collectInput EmptyString lines.

(** the lines, each closed by a line feed, one after the other *)
Definition unlines (lines : list string) : string :=
  fold_right (fun line rest => line +:+ nl +:+ rest) EmptyString lines.


(** [ANTHROPIC_API_KEY] is not set *)
Definition keyless_env : env :=
  {| cwd := "/repo";
     path_join := String.concat "/";
     path_basename := fun p ext => without_suffix (last_segment p) ext;
     path_extname := fun p => extension (last_segment p);
     resolve := fun p => p;
     parents := directories_above;
     apiKey := None;
     DOCUMENTATION_PROMPT := "Documente ce fichier.";
     fetch := fun _ _ => Body "# Documentation";
     io_fault := fun _ _ => None |}.


(** ** The grouping of the report and the dispatch of [main] *)

(** the properties an object literal inherits from [Object.prototype] *)
Definition inherited : list string :=
  ["constructor"; "__defineGetter__"; "__defineSetter__"; "hasOwnProperty";
   "__lookupGetter__"; "__lookupSetter__"; "isPrototypeOf";
   "propertyIsEnumerable"; "toString"; "valueOf"; "__proto__";
   "toLocaleString"].

Definition not_a_function : string := "acc[category].push is not a function".

(** one turn of the [reduce] over the generated results.  [acc[category]]
    is truthy when [acc] owns the property (an array) and when it inherits
    it; an inherited value has no [push], and calling it throws a
    TypeError.  [path.basename] with no suffix is [path.basename] with
    the empty suffix. *)
Definition group_step (E : env) (acc : outcome (gmap string (list string)))
  (r : result) : outcome (gmap string (list string)) :=
  match acc with
  | Thrown message => Thrown message
  | Returned acc =>
      let category := getDocumentationFolder (filePath r) in
      let name := path_basename E (filePath r) EmptyString in
      match acc !! category with
      | Some files => Returned (<[category := files ++ [name]]> acc)
      | None =>
          if bool_decide (category ∈ inherited) then Thrown not_a_function
          else Returned (<[category := [name]]> acc)
      end
  end.

(** [successful.reduce(..., {})] *)
Definition byCategory (E : env) (results : list result)
  : outcome (gmap string (list string)) :=
  fold_left (group_step E) (successful results) (Returned ∅).

(** the names listed under a category: those of the generated results
    classified there, in the order of the report *)
Definition listed (E : env) (category : string) (results : list result)
  : list string :=
  map (fun r => path_basename E (filePath r) EmptyString)
      (List.filter
         (fun r => String.eqb (getDocumentationFolder (filePath r)) category)
         results).

Definition is_flag (arg : string) : bool :=
  String.eqb arg "--force" || String.eqb arg "--api".

(** [args.filter(arg => !['--force', '--api'].includes(arg))] *)
Definition filteredArgs (args : list string) : list string :=
  List.filter (fun arg => negb (is_flag arg)) args.

(** how [main] ends: the exit status of the process, the results whose
    report it printed (none after the usage text, nor when the error
    comes before the report) and whether it called
    [generateDocumentationIndex] *)
Record finished := {
  exitCode : nat;
  reported : option (list result);
  indexed : bool }.

Definition usage_shown : finished :=
  {| exitCode := 0; reported := None; indexed := false |}.

Definition fatal : finished :=
  {| exitCode := 1; reported := None; indexed := false |}.

Section Main.

Variable E : env.

(** [findFilesToDocument(directory)] on the disk as it is when [main]
    starts, taken as returning its list; [None] stands for the default
    directory *)
Variable discover : world → option string → list string.

(** the three branches that fill [results] *)
Definition gather (forceMode : bool) (filtered : list string)
  : M (list result) :=
  match filtered with
  | first :: others =>
      if String.eqb first "--all" then
        fun w => documentMultipleFiles E (discover w None) forceMode w
      else if String.eqb first "--dir" && truthy (head others) then
        fun w =>
          documentMultipleFiles E
            (discover w (Some (default EmptyString (head others))))
            forceMode w
      else
        let! d := documentFile E first forceMode in
        ret [pushed first (Returned d)]
  | [] => throw (not_found "undefined")
  end.

(** [apiMode] only stores [false] in [CONFIG.useCursorClaude], which holds
    [false] already: it has no part in what follows.  The counts of the
    report are printed before the generated files are grouped, so an
    error of the grouping ends the process with status 1 after the
    report and before the index.  The call of
    [generateDocumentationIndex] is recorded, not performed. *)
Definition main (args : list string) (w : world) : finished * world :=
  if length args =? 0 then (usage_shown, w)
  else
    let forceMode := existsb (String.eqb "--force") args in
    match gather forceMode (filteredArgs args) w with
    | (Thrown _, w') => (fatal, w')
    | (Returned results, w') =>
        let grouped :=
          if 0 <? length (successful results) then byCategory E results
          else Returned ∅ in
        match grouped with
        | Thrown _ =>
            ({| exitCode := 1; reported := Some results; indexed := false |},
             w')
        | Returned _ =>
            ({| exitCode := 0; reported := Some results;
                indexed := rebuilds_index results |}, w')
        end
    end.

End Main.


(** the two sources of [example_world], as a discovery would list them *)
Definition example_discover (w : world) (directory : option string)
  : list string :=
  ["src/components/Card.tsx"; "src/weird/Thing.js"].


(** ** [findFilesToDocument]

    What a path leads to, as [fs.statSync] sees it: a regular file,
    something that is neither a file nor a directory, or a directory with
    the entries [fs.readdirSync] lists, in its order. *)

#[warnings="-register-all"]
Inductive disk :=
| RegularFile
| Special
| Dir (children : list (string * disk)).

(** [item.startsWith(prefix)] *)
Definition startsWith (item prefix : string) : bool :=
  String.prefix prefix item.

(** [list.includes(x)] *)
Definition includes (l : list string) (x : string) : bool :=
  existsb (String.eqb x) l.

(** a directory the scan goes into *)
Definition descends (item : string) : bool :=
  negb (startsWith item ".") && negb (String.eqb item "node_modules").

Section Discovery.

(** [path.join(dir, item)] and [path.extname(item)] *)
Variable join : string → string → string.
Variable extname : string → string.
Variable exts : list string.

(** the body of the loop of [scanDirectory] for one entry, with the
    recursive scan of a directory *)
Fixpoint visit (fullPath item : string) (t : disk) : list string :=
  match t with
  | Dir children =>
      if descends item then
        (fix scan (items : list (string * disk)) : list string :=
           match items with
           | [] => []
           | (i, t') :: rest => visit (join fullPath i) i t' ++ scan rest
           end) children
      else []
  | RegularFile => if includes exts (extname item) then [fullPath] else []
  | Special => []
  end.

(** [scanDirectory(dir)], from the entries of [dir]: what it pushes *)
Definition scanDirectory (dir : string) (items : list (string * disk))
  : list string :=
  flat_map (fun it => visit (join dir it.1) it.1 it.2) items.

(** [findFilesToDocument(directory, exts)], from what [directory] leads
    to: nothing when it does not exist; [fs.readdirSync] throws when it is
    not a directory *)
Definition findFilesToDocument (directory : string) (root : option disk)
  : outcome (list string) :=
  match root with
  | None => Returned []
  | Some (Dir children) => Returned (scanDirectory directory children)
  | Some _ => Thrown ("ENOTDIR: not a directory, scandir " +:+ directory)
  end.

(** [found dir items p]: [p] is the path of a regular file with an
    accepted extension, reached from [dir] through directories that the
    scan goes into *)
Inductive found : string → list (string * disk) → string → Prop :=
| found_here dir items item :
    In (item, RegularFile) items →
    includes exts (extname item) = true →
    found dir items (join dir item)
| found_below dir items item children p :
    In (item, Dir children) items →
    descends item = true →
    found (join dir item) children p →
    found dir items p.

End Discovery.


(** a stand-in for [path.join(dir, item)] on POSIX paths *)
Definition slash_join (dir item : string) : string := dir +:+ "/" +:+ item.

(** a small source tree with a hidden file, a hidden directory and
    [node_modules] *)
Definition example_tree : list (string * disk) :=
  [ (".eslintrc.js", RegularFile);
    (".git", Dir [("hook.js", RegularFile)]);
    ("components", Dir [("Card.tsx", RegularFile); ("Card.css", RegularFile)]);
    ("node_modules", Dir [("index.js", RegularFile)]);
    ("socket", Special) ].


(** a source in a directory called [constructor], and its discovery *)
Definition constructor_world : world :=
  {| nodes := {[ "src/constructor/Build.js" := File "class Build {}" ]};
     trace := [] |}.

Definition constructor_discover (w : world) (directory : option string)
  : list string :=
  ["src/constructor/Build.js"].


(** ** The classifier on strings with a capital that has no small form

    The strings above hold code units below 256.  [Wide] is the same
    classifier, line for line, on strings that may also hold the code
    unit U+2102, DOUBLE-STRUCK CAPITAL C: an uppercase letter (general
    category Lu) to which Unicode gives no lowercase mapping, so that
    [toLowerCase] leaves it as it is. *)

Module Wide.

Inductive unit := Narrow (c : ascii) | DoubleStruckC.

Definition widen (s : string) : list unit :=
  map Narrow (list_ascii_of_string s).

Definition unit_eqb (a b : unit) : bool :=
  match a, b with
  | Narrow c, Narrow d => Ascii.eqb c d
  | DoubleStruckC, DoubleStruckC => true
  | _, _ => false
  end.

Fixpoint eqb (s t : list unit) : bool :=
  match s, t with
  | [], [] => true
  | a :: s', b :: t' => unit_eqb a b && eqb s' t'
  | _, _ => false
  end.

Definition is_upper (u : unit) : bool :=
  match u with
  | Narrow c => JS.is_upper c
  | DoubleStruckC => true
  end.

Definition lower_unit (u : unit) : unit :=
  match u with
  | Narrow c => Narrow (JS.lower_unit c)
  | DoubleStruckC => DoubleStruckC
  end.

Definition unbackslash (u : unit) : unit :=
  match u with
  | Narrow c => Narrow (JS.unbackslash c)
  | DoubleStruckC => DoubleStruckC
  end.

Definition toLowerCase (s : list unit) : list unit := map lower_unit s.

Definition replace_backslashes (s : list unit) : list unit :=
  map unbackslash s.

Fixpoint split (sep : unit) (s : list unit) : list (list unit) :=
  match s with
  | [] => [[]]
  | c :: r =>
      if unit_eqb c sep then [] :: split sep r
      else match split sep r with
           | h :: t => (c :: h) :: t
           | [] => [[c]]
           end
  end.

Fixpoint strip (w s : list unit) : option (list unit) :=
  match w, s with
  | [], _ => Some s
  | a :: w', b :: s' => if unit_eqb a b then strip w' s' else None
  | _ :: _, [] => None
  end.

Definition lit (w : string) (k : list unit → bool) (s : list unit) : bool :=
  match strip (widen w) s with Some r => k r | None => false end.

Definition is_line_terminator (u : unit) : bool :=
  match u with
  | Narrow c => JS.is_line_terminator c
  | DoubleStruckC => false
  end.

Fixpoint dot_star (k : list unit → bool) (s : list unit) : bool :=
  k s
  || match s with
     | [] => false
     | c :: r => negb (is_line_terminator c) && dot_star k r
     end.

Definition opt (c : ascii) (k : list unit → bool) (s : list unit) : bool :=
  match s with
  | b :: r => (unit_eqb b (Narrow c) && k r) || k s
  | [] => k s
  end.

Definition eos (s : list unit) : bool :=
  match s with [] => true | _ => false end.

Definition anything (_ : list unit) : bool := true.

Fixpoint test (m : list unit → bool) (s : list unit) : bool :=
  m s
  || match s with
     | [] => false
     | _ :: r => test m r
     end.

Record mapping := { pattern : list unit → bool; folder : string }.

Definition segment (name : string) : list unit → bool :=
  lit "/" (lit name (lit "/" anything)).

Definition app_file (name : string) : list unit → bool :=
  lit "/app/" (dot_star (lit name (lit ".ts" (opt "x"%char eos)))).

Definition folderMappings : list mapping :=
  [ {| pattern := segment "components"; folder := "components" |};
    {| pattern := segment "api"; folder := "api" |};
    {| pattern := segment "hooks"; folder := "hooks" |};
    {| pattern := segment "utils"; folder := "utils" |};
    {| pattern := segment "types"; folder := "types" |};
    {| pattern := segment "lib"; folder := "lib" |};
    {| pattern := segment "services"; folder := "services" |};
    {| pattern := segment "middleware"; folder := "middleware" |};
    {| pattern := segment "pages"; folder := "pages" |};
    {| pattern := app_file "page"; folder := "pages" |};
    {| pattern := app_file "layout"; folder := "layouts" |};
    {| pattern := app_file "loading"; folder := "loading" |};
    {| pattern := app_file "error"; folder := "error" |};
    {| pattern := app_file "not-found"; folder := "error" |} ].

Definition normalize (filePath : list unit) : list unit :=
  toLowerCase (replace_backslashes filePath).

Definition first_match (normalizedPath : list unit) : option mapping :=
  List.find (fun m => test (pattern m) normalizedPath) folderMappings.

Definition fallback (normalizedPath : list unit) : list unit :=
  let pathParts := split (Narrow JS.slash) normalizedPath in
  if 1 <? length pathParts then
    let parentFolder := nth (length pathParts - 2) pathParts [] in
    if negb (eqb parentFolder [])
       && negb (eqb parentFolder (widen "src"))
       && negb (eqb parentFolder (widen "app"))
    then parentFolder
    else widen "general"
  else widen "general".

Definition getDocumentationFolder (filePath : list unit) : list unit :=
  let normalizedPath := normalize filePath in
  match first_match normalizedPath with
  | Some m => widen (folder m)
  | None => fallback normalizedPath
  end.

Definition no_upper (s : list unit) : bool :=
  forallb (fun u => negb (is_upper u)) s.

End Wide.

(** a source under a directory whose name is the letter U+2102 *)
Definition double_struck_path : list Wide.unit :=
  Wide.widen "src/" ++ [Wide.DoubleStruckC] ++ Wide.widen "/Sets.js".


(** neither a slash nor a backslash *)
Definition no_separator (s : string) : bool :=
  all_units (fun c => negb (is_separator c)) s.


(** * Properties *)

(** ** Strings *)

Section StringFacts.

Lemma append_cons c s t : String c s +:+ t = String c (s +:+ t).
Proof. reflexivity. Qed.

Lemma append_nil_r s : s +:+ EmptyString = s.
Proof. induction s as [|c s IH]; [done|]. by rewrite append_cons, IH. Qed.

Lemma append_assoc s t u : (s +:+ t) +:+ u = s +:+ (t +:+ u).
Proof. induction s as [|c s IH]; [done|]. by rewrite !append_cons, IH. Qed.

Lemma map_units_app f s t :
  JS.map_units f (s +:+ t) = JS.map_units f s +:+ JS.map_units f t.
Proof.
  induction s as [|c s IH]; [done|].
  rewrite append_cons. simpl. by rewrite IH.
Qed.

Lemma lower_unbackslash c :
  JS.lower_unit (JS.unbackslash c) = JS.unbackslash (JS.lower_unit c).
Proof. by destruct c as [[] [] [] [] [] [] [] []]. Qed.

Lemma normalize_commute s :
  normalize s = JS.replace_backslashes (JS.toLowerCase s).
Proof.
  unfold normalize, JS.toLowerCase, JS.replace_backslashes.
  induction s as [|c s IH]; [done|].
  simpl. by rewrite IH, lower_unbackslash.
Qed.

Lemma normalize_app s t : normalize (s +:+ t) = normalize s +:+ normalize t.
Proof.
  unfold normalize, JS.toLowerCase, JS.replace_backslashes.
  by rewrite !map_units_app.
Qed.

Lemma normalize_cons c s :
  normalize (String c s) = String (JS.lower_unit (JS.unbackslash c)) (normalize s).
Proof. reflexivity. Qed.

Lemma strip_app w r : JS.strip w (w +:+ r) = Some r.
Proof.
  induction w as [|c w IH]; [done|].
  rewrite append_cons. simpl. by rewrite Ascii.eqb_refl.
Qed.

Lemma lit_app w k r : JS.lit w k (w +:+ r) = k r.
Proof. unfold JS.lit. by rewrite strip_app. Qed.

Lemma test_here m s : m s = true → JS.test m s = true.
Proof. intros H. destruct s; simpl; by rewrite H. Qed.

Lemma test_app m a s : JS.test m s = true → JS.test m (a +:+ s) = true.
Proof.
  intros H. induction a as [|c a IH]; [done|].
  rewrite append_cons. simpl. rewrite IH. apply orb_true_r.
Qed.

Lemma segment_found name a b :
  JS.test (segment name) (a +:+ "/" +:+ name +:+ "/" +:+ b) = true.
Proof.
  apply test_app, test_here. unfold segment.
  by rewrite !lit_app.
Qed.

End StringFacts.

(** ** The classifier *)

Lemma first_rule_wins filePath :
  JS.test (segment "components") (normalize filePath) = true →
  getDocumentationFolder filePath = "components".
Proof.
  intros H. unfold getDocumentationFolder, first_match, folderMappings.
  cbn [List.find pattern]. by rewrite H.
Qed.

Lemma separator_normalized c :
  is_separator c = true → JS.lower_unit (JS.unbackslash c) = JS.slash.
Proof. by destruct c as [[] [] [] [] [] [] [] []]. Qed.

(** C1 (amended).  A path in which a segment spelling "components" in any
    casing stands between two separators, each a slash or a backslash, is
    classified "components", whatever surrounds it. *)
Theorem components_between_separators (a s b : string) (sep1 sep2 : ascii) :
  JS.toLowerCase s = "components" →
  is_separator sep1 = true →
  is_separator sep2 = true →
  getDocumentationFolder (a +:+ String sep1 (s +:+ String sep2 b))
  = "components".
Proof.
  intros Hs H1 H2. apply first_rule_wins.
  rewrite normalize_app, normalize_cons, normalize_app, normalize_cons.
  rewrite (normalize_commute s), Hs, !separator_normalized by done.
  apply (segment_found "components").
Qed.

Lemma components_between_separators_witness :
  JS.toLowerCase "COMPONENTS" = "components"
  ∧ is_separator JS.backslash = true
  ∧ is_separator JS.slash = true
  ∧ getDocumentationFolder "C:\Repo\Src\COMPONENTS/Card.tsx" = "components".
Proof.
  split; [reflexivity|]. split; [reflexivity|]. split; [reflexivity|].
  apply (components_between_separators "C:\Repo\Src" "COMPONENTS" "Card.tsx"
           JS.backslash JS.slash); reflexivity.
Defined.

(** C1 as stated fails: a leading "components" segment has no separator
    before it, so the first rule does not see it and a later rule wins. *)
Lemma components_segment_counterexample :
  In "components" (segments "components/api/route.ts")
  ∧ getDocumentationFolder "components/api/route.ts" ≠ "components".
Proof. split; [by left | by vm_compute]. Qed.

(** *** The category holds no capital *)

Lemma lower_unit_not_upper c : JS.is_upper (JS.lower_unit c) = false.
Proof. by destruct c as [[] [] [] [] [] [] [] []]. Qed.

Lemma unbackslash_keeps_lower c :
  JS.is_upper c = false → JS.is_upper (JS.unbackslash c) = false.
Proof. by destruct c as [[] [] [] [] [] [] [] []]. Qed.

Lemma normalize_no_upper s : no_upper (normalize s) = true.
Proof.
  induction s as [|c s IH]; [done|].
  rewrite normalize_cons. unfold no_upper in *. simpl.
  by rewrite lower_unit_not_upper, IH.
Qed.

Lemma split_all_units P sep s :
  all_units P s = true →
  Forall (fun part => all_units P part = true) (JS.split sep s).
Proof.
  induction s as [|c s IH]; simpl.
  - intros _. by constructor.
  - intros [Hc Hs]%andb_true_iff. specialize (IH Hs).
    destruct (Ascii.eqb c sep).
    + by constructor.
    + destruct (JS.split sep s) as [|h t].
      * constructor; [|done]. simpl. by rewrite Hc.
      * inversion IH; subst. constructor; [|done]. simpl. by rewrite Hc.
Qed.

Lemma nth_all_units P (l : list string) n :
  Forall (fun part => all_units P part = true) l →
  all_units P (nth n l EmptyString) = true.
Proof.
  intros H. revert n. induction H as [|x l Hx _ IH]; intros [|n]; simpl; auto.
Qed.

Lemma fallback_no_upper n : no_upper n = true → no_upper (fallback n) = true.
Proof.
  intros H. unfold fallback.
  destruct (1 <? _); [|done].
  destruct (_ && _); [|done].
  by apply nth_all_units, split_all_units.
Qed.

Lemma folders_no_upper m : In m folderMappings → no_upper (folder m) = true.
Proof.
  unfold folderMappings. simpl.
  intros H. repeat (destruct H as [<-|H]; [reflexivity|]). destruct H.
Qed.

Lemma category_no_upper (filePath : string) :
  no_upper (getDocumentationFolder filePath) = true.
Proof.
  unfold getDocumentationFolder.
  destruct (first_match (normalize filePath)) as [m|] eqn:Hm.
  - apply folders_no_upper. unfold first_match in Hm.
    by apply List.find_some in Hm as [? _].
  - apply fallback_no_upper, normalize_no_upper.
Qed.

(** C9 (amended).  The category returned for a path of code units below
    256 never holds a capital letter: the categories of the rules are
    lowercase literals, and the parent name of the fallback is cut out of
    the lowercased path.  So the output directory may be spelled
    otherwise than the source directory: the files of [Weird] go to
    [weird]. *)
Theorem category_has_no_capital :
  (∀ filePath, no_upper (getDocumentationFolder filePath) = true)
  ∧ In "Weird" (JS.split JS.slash "src/Weird/Thing.js")
  ∧ getDocumentationFolder "src/Weird/Thing.js" = "weird".
Proof.
  split; [apply category_no_upper|]. split; [|reflexivity].
  right. by left.
Qed.

(** *** The fallback *)

Lemma split_nonempty sep s : JS.split sep s ≠ [].
Proof.
  destruct s as [|c s]; simpl; [done|].
  destruct (Ascii.eqb c sep); [done|]. by destruct (JS.split sep s).
Qed.

Lemma split_no_slash s : no_slash s = true → JS.split JS.slash s = [s].
Proof.
  unfold no_slash. induction s as [|c s IH]; simpl; [done|].
  intros [Hc Hs]%andb_true_iff. apply negb_true_iff in Hc.
  by rewrite Hc, IH.
Qed.

Lemma split_app_slash x y :
  JS.split JS.slash (x +:+ "/" +:+ y)
  = JS.split JS.slash x ++ JS.split JS.slash y.
Proof.
  induction x as [|c x IH]; [done|].
  rewrite append_cons. simpl. rewrite IH.
  destruct (Ascii.eqb c JS.slash); [done|].
  pose proof (split_nonempty JS.slash x) as Hne.
  by destruct (JS.split JS.slash x).
Qed.

Lemma fallback_parent_file l parent file :
  let parts := l ++ [parent; file] in
  (1 <? length parts) = true ∧ nth (length parts - 2) parts EmptyString = parent.
Proof.
  simpl. rewrite length_app. simpl. split.
  - apply Nat.ltb_lt. lia.
  - replace (length l + 2 - 2) with (length l + 0) by lia.
    by rewrite app_nth2_plus.
Qed.

Lemma fallback_decomposed pre parent file :
  pre = EmptyString ∨ (∃ q, pre = q +:+ "/") →
  no_slash parent = true →
  no_slash file = true →
  fallback (pre +:+ parent +:+ "/" +:+ file)
  = if reserved parent then "general" else parent.
Proof.
  intros Hpre Hp Hf.
  assert (∃ l, JS.split JS.slash (pre +:+ parent +:+ "/" +:+ file)
               = l ++ [parent; file]) as [l Hl].
  { destruct Hpre as [->|[q ->]].
    - exists []. simpl. change (EmptyString +:+ ?s) with s.
      by rewrite split_app_slash, !split_no_slash.
    - exists (JS.split JS.slash q).
      rewrite append_assoc, !split_app_slash.
      by rewrite (split_no_slash parent), (split_no_slash file). }
  unfold fallback. rewrite Hl.
  destruct (fallback_parent_file l parent file) as [-> ->].
  unfold reserved.
  by destruct (String.eqb parent EmptyString), (String.eqb parent "src"),
    (String.eqb parent "app").
Qed.

(** When no rule matches, the normalized path decides: if it ends in
    two segments [parent/file], the category is [parent], unless [parent]
    is empty or one of the reserved names "src" and "app", which give
    "general"; a path with no separator at all gives "general" too. *)
Lemma fallback_on_the_normalized_path (filePath : string) :
  first_match (normalize filePath) = None →
  (∀ pre parent file,
      normalize filePath = pre +:+ parent +:+ "/" +:+ file →
      pre = EmptyString ∨ (∃ q, pre = q +:+ "/") →
      no_slash parent = true →
      no_slash file = true →
      getDocumentationFolder filePath
      = if reserved parent then "general" else parent)
  ∧ (no_slash (normalize filePath) = true →
     getDocumentationFolder filePath = "general").
Proof.
  intros Hnone. unfold getDocumentationFolder. rewrite Hnone. split.
  - intros pre parent file -> Hpre Hp Hf. by apply fallback_decomposed.
  - intros Hn. unfold fallback. by rewrite split_no_slash.
Qed.

(** *** The page rule *)

Lemma all_units_app P s t :
  all_units P (s +:+ t) = all_units P s && all_units P t.
Proof.
  induction s as [|c s IH]; [done|].
  rewrite append_cons. simpl. by rewrite IH, andb_assoc.
Qed.

Lemma below_one_line dirs :
  Forall (fun d => one_line d = true) dirs → one_line (below dirs) = true.
Proof.
  unfold one_line. induction 1 as [|d dirs Hd _ IH]; [done|].
  simpl. by rewrite !all_units_app, Hd, IH.
Qed.

Lemma dot_star_app k m r :
  one_line m = true → k r = true → JS.dot_star k (m +:+ r) = true.
Proof.
  unfold one_line. intros Hm Hk. induction m as [|c m IH].
  - destruct r; simpl; by rewrite Hk.
  - simpl in Hm. apply andb_true_iff in Hm as [Hc Hm].
    rewrite append_cons. simpl. rewrite Hc, IH by done. apply orb_true_r.
Qed.

Lemma app_file_found name ext a m :
  ext = ".ts" ∨ ext = ".tsx" →
  one_line m = true →
  JS.test (app_file name) (a +:+ "/app/" +:+ m +:+ name +:+ ext) = true.
Proof.
  intros Hext Hm. apply test_app, test_here. unfold app_file.
  rewrite lit_app. apply dot_star_app; [done|].
  rewrite lit_app. by destruct Hext as [->| ->].
Qed.

(** C2 (amended).  Let no rule of the form [/name/] match the normalized
    path.  If that path holds [/app/], then directories free of line
    breaks, then a final component named "page" with the extension [.ts]
    or [.tsx], the category is "pages". *)
Theorem page_below_app (filePath a ext : string) (dirs : list string) :
  Forall (fun r => JS.test (pattern r) (normalize filePath) = false)
         segment_rules →
  normalize filePath = a +:+ "/app/" +:+ below dirs +:+ "page" +:+ ext →
  ext = ".ts" ∨ ext = ".tsx" →
  Forall (fun d => one_line d = true) dirs →
  getDocumentationFolder filePath = "pages".
Proof.
  intros Hseg Hpath Hext Hdirs.
  assert (JS.test (app_file "page") (normalize filePath) = true) as Hpage.
  { rewrite Hpath. by apply app_file_found, below_one_line. }
  unfold segment_rules, folderMappings in Hseg. simpl in Hseg.
  rewrite !Forall_cons in Hseg.
  destruct Hseg as (H1 & H2 & H3 & H4 & H5 & H6 & H7 & H8 & H9 & _).
  unfold getDocumentationFolder, first_match, folderMappings.
  cbn [List.find pattern] in *.
  by rewrite H1, H2, H3, H4, H5, H6, H7, H8, H9, Hpage.
Qed.

Lemma page_below_app_witness :
  Forall (fun r =>
            JS.test (pattern r) (normalize "src\App\Dashboard\Settings\Page.TSX")
            = false) segment_rules
  ∧ getDocumentationFolder "src\App\Dashboard\Settings\Page.TSX" = "pages".
Proof.
  assert (Forall (fun r =>
            JS.test (pattern r) (normalize "src\App\Dashboard\Settings\Page.TSX")
            = false) segment_rules) as Hseg.
  { unfold segment_rules, folderMappings. simpl firstn.
    repeat (constructor; [reflexivity|]). constructor. }
  split; [exact Hseg|].
  apply (page_below_app "src\App\Dashboard\Settings\Page.TSX" "src" ".tsx"
           ["dashboard"; "settings"] Hseg).
  - reflexivity.
  - by right.
  - repeat (constructor; [reflexivity|]). constructor.
Defined.

(** C2 as stated fails twice over: a page file below "app" that also lies
    under a "components" directory is taken by the first rule, and the
    page rule takes a file that is not named "page". *)
Lemma page_rule_counterexample :
  (in_app_tree "src/app/components/page.tsx"
   ∧ named "page" "src/app/components/page.tsx"
   ∧ getDocumentationFolder "src/app/components/page.tsx" ≠ "pages")
  ∧ (first_match (normalize "src/app/homepage.tsx") = Some page_rule
     ∧ getDocumentationFolder "src/app/homepage.tsx" = "pages"
     ∧ ¬ named "page" "src/app/homepage.tsx").
Proof.
  split; [split; [|split]|split; [|split]].
  - unfold in_app_tree. vm_compute. tauto.
  - exists ".tsx". split; [vm_compute; tauto|reflexivity].
  - by vm_compute.
  - reflexivity.
  - reflexivity.
  - intros (ext & Hext & Heq). vm_compute in Hext, Heq.
    by decompose [or] Hext; subst.
Qed.

(** ** The report *)

Lemma some_kept {A} (f : A → bool) (l : list A) :
  (0 <? length (List.filter f l)) = true ↔ ∃ x, In x l ∧ f x = true.
Proof.
  split.
  - destruct (List.filter f l) as [|x k] eqn:Hk; [done|]. intros _.
    exists x. apply List.filter_In. rewrite Hk. by left.
  - intros (x & Hx). apply List.filter_In in Hx.
    destruct (List.filter f l); [done|]. reflexivity.
Qed.

Lemma rebuilds_index_true results :
  rebuilds_index results = true
  ↔ (∃ r, In r results ∧ is_generated r) ∨ (∃ r, In r results ∧ is_skipped r).
Proof.
  unfold rebuilds_index, successful, skipped_ones, is_generated, is_skipped.
  rewrite orb_true_iff, andb_true_iff, !some_kept. split.
  - intros [(r & Hr & [Hs Hk%negb_true_iff]%andb_true_iff)
           |[_ (r & Hr & [Hs Hk]%andb_true_iff)]]; [left|right]; eauto.
  - intros [(r & Hr & Hs & Hk)|(r & Hr & Hs & Hk)].
    + left. exists r. by rewrite Hs, Hk.
    + destruct (length (List.filter _ results)) eqn:Hlen.
      * right. split; [done|]. exists r. by rewrite Hs, Hk.
      * left. apply some_kept. by rewrite Hlen.
Qed.

(** The guard written before the call of [generateDocumentationIndex]
    holds exactly when the report holds a generated or a skipped result,
    and fails exactly when every result is a failure, which includes the
    empty batch. *)
Lemma guard_of_the_rebuild (results : list result) :
  (rebuilds_index results = true
   ↔ (∃ r, In r results ∧ is_generated r) ∨ (∃ r, In r results ∧ is_skipped r))
  ∧ (rebuilds_index results = false ↔ Forall is_failure results).
Proof.
  split; [apply rebuilds_index_true|].
  rewrite <- not_true_iff_false, rebuilds_index_true, List.Forall_forall.
  unfold is_generated, is_skipped, is_failure. split.
  - intros Hno r Hr. destruct (success r) eqn:Hs; [|done].
    destruct (r_skipped r) eqn:Hk; exfalso; apply Hno; [right|left]; eauto.
  - intros Hall [(r & Hr & Hs & _)|(r & Hr & Hs & _)];
      apply Hall in Hr; congruence.
Qed.

(** ** The orchestrator *)

Section OrchestratorFacts.

Variable E : env.

Lemma step_pushed force results f w :
  step E force results f w
  = (Returned (results ++ [pushed f (documentFile E f force w).1]),
     (documentFile E f force w).2).
Proof.
  unfold step, try_catch, bind, ret.
  destruct (documentFile E f force w) as [[d|message] w']; simpl; [|done].
  by destruct (skipped d).
Qed.

Lemma loop_run force filePaths : ∀ results w,
  loop E force results filePaths w
  = (Returned (results ++ (run E force filePaths w).1),
     (run E force filePaths w).2).
Proof.
  induction filePaths as [|f rest IH]; intros results w; simpl.
  - unfold ret. by rewrite app_nil_r.
  - unfold bind. rewrite step_pushed, IH.
    destruct (documentFile E f force w) as [o w1]. simpl.
    destruct (run E force rest w1) as [rs w2]. simpl.
    by rewrite <- app_assoc.
Qed.

Lemma documentMultipleFiles_run filePaths force w :
  documentMultipleFiles E filePaths force w
  = (Returned (run E force filePaths w).1, (run E force filePaths w).2).
Proof. unfold documentMultipleFiles. by rewrite loop_run. Qed.

Lemma run_app force l1 l2 w :
  run E force (l1 ++ l2) w
  = ((run E force l1 w).1 ++ (run E force l2 (run E force l1 w).2).1,
     (run E force l2 (run E force l1 w).2).2).
Proof.
  revert w. induction l1 as [|f l1 IH]; intros w; simpl.
  - by destruct (run E force l2 w).
  - destruct (documentFile E f force w) as [o w1]. rewrite IH.
    by destruct (run E force l1 w1).
Qed.

Lemma run_paths force filePaths w :
  map filePath (run E force filePaths w).1 = filePaths.
Proof.
  revert w. induction filePaths as [|f rest IH]; intros w; simpl; [done|].
  destruct (documentFile E f force w) as [o w1].
  specialize (IH w1). destruct (run E force rest w1) as [rs w2].
  simpl in *. rewrite IH. f_equal.
  destruct o as [d|message]; simpl; [|done]. by destruct (skipped d).
Qed.

Lemma pushed_coherent f o : coherent (pushed f o).
Proof.
  destruct o as [d|message]; simpl; [destruct (skipped d)|];
    unfold coherent; simpl; (repeat split; [done..|]); by intros [].
Qed.

Lemma run_coherent force filePaths w :
  Forall coherent (run E force filePaths w).1.
Proof.
  revert w. induction filePaths as [|f rest IH]; intros w; simpl.
  - constructor.
  - destruct (documentFile E f force w) as [o w1].
    specialize (IH w1). destruct (run E force rest w1) as [rs w2].
    constructor; [apply pushed_coherent|done].
Qed.

End OrchestratorFacts.

(** C8.  [documentMultipleFiles] returns, and what it returns is one
    result per input path, the paths of the results being the inputs in
    their order. *)
Theorem one_result_per_input_in_order
  (E : env) (filePaths : list string) (force : bool) (w : world) :
  ∃ results w',
    documentMultipleFiles E filePaths force w = (Returned results, w')
    ∧ length results = length filePaths
    ∧ map filePath results = filePaths.
Proof.
  eexists _, _. split; [apply documentMultipleFiles_run|].
  pose proof (run_paths E force filePaths w) as H. split; [|done].
  by rewrite <- H at 2; rewrite length_map.
Qed.

(** C10.  In every result of a batch, skipped entails success, a failure
    is not skipped and carries an error message, and so no result is a
    skip and a failure at once. *)
Theorem results_are_coherent
  (E : env) (filePaths : list string) (force : bool) (w : world) :
  ∃ results w',
    documentMultipleFiles E filePaths force w = (Returned results, w')
    ∧ Forall coherent results.
Proof.
  eexists _, _. split; [apply documentMultipleFiles_run|].
  apply run_coherent.
Qed.

(** *** Rules of the weakest precondition *)

Lemma wp_elim {A} (m : M A) Q w : wp m Q w → Q (m w).1 (m w).2.
Proof. by intros []. Qed.

Section Wp.

Variable E : env.

Lemma wp_ret {A} (a : A) Q w : Q (Returned a) w → wp (ret a) Q w.
Proof. by constructor. Qed.

Lemma wp_throw {A} message (Q : outcome A → world → Prop) w :
  Q (Thrown message) w → wp (throw message) Q w.
Proof. by constructor. Qed.

Lemma wp_bind {A B} (m : M A) (k : A → M B) Q w :
  wp m (fun o w1 =>
          match o with
          | Returned a => wp (k a) Q w1
          | Thrown message => Q (Thrown message) w1
          end) w →
  wp (bind m k) Q w.
Proof.
  intros [H]. constructor. unfold bind.
  destruct (m w) as [[a|message] w1]; [by apply wp_elim|done].
Qed.

Lemma wp_try_catch {A} (m : M A) handler Q w :
  wp m (fun o w1 =>
          match o with
          | Returned a => Q (Returned a) w1
          | Thrown message => wp (handler message) Q w1
          end) w →
  wp (try_catch m handler) Q w.
Proof.
  intros [H]. constructor. unfold try_catch.
  destruct (m w) as [[a|message] w1]; [done|by apply wp_elim].
Qed.

Lemma wp_existsSync p Q w :
  (present E w p → Q (Returned true) w) →
  (¬ present E w p → Q (Returned false) w) →
  wp (existsSync E p) Q w.
Proof.
  intros Ht Hf. constructor. unfold existsSync. simpl.
  case_bool_decide; [by apply Ht | by apply Hf].
Qed.

Lemma wp_attempt {A} e (m : M A) Q w :
  (∀ message, Q (Thrown message) (record e w)) →
  wp m Q (record e w) →
  wp (attempt E e m) Q w.
Proof.
  intros Hfault [Hm]. constructor. unfold attempt.
  destruct (io_fault E (clock w) e); [apply Hfault | apply Hm].
Qed.

Lemma wp_mkdirSync p Q w :
  (∀ message, Q (Thrown message) (record (Mkdir p) w)) →
  Q (Returned tt)
    (make_directories (resolve E p :: map (resolve E) (parents E p))
       (record (Mkdir p) w)) →
  ¬ present E w p →
  wp (mkdirSync E p) Q w.
Proof.
  intros Hfault Hok Hp. apply wp_attempt; [done|]. constructor.
  cbv zeta. destruct (existsb _ _); [apply Hfault|]. simpl.
  destruct (nodes w !! resolve E p) eqn:Hn; [|done].
  destruct Hp. by eexists.
Qed.

Lemma wp_readFileSync p Q w :
  (∀ message, Q (Thrown message) (record (Read p) w)) →
  (∀ content, Q (Returned content) (record (Read p) w)) →
  wp (readFileSync E p) Q w.
Proof.
  intros Hfault Hok. apply wp_attempt; [done|]. constructor. simpl.
  destruct (nodes w !! resolve E p) as [[content|]|]; simpl; auto.
Qed.

Lemma wp_writeFileSync p content Q w :
  (∀ message, Q (Thrown message) (record (Write p content) w)) →
  Q (Returned tt)
    (store (resolve E p) (File content) (record (Write p content) w)) →
  wp (writeFileSync E p content) Q w.
Proof.
  intros Hfault Hok. apply wp_attempt; [done|]. constructor. simpl.
  destruct (nodes w !! resolve E p) as [[c|]|]; simpl; auto.
Qed.

Lemma wp_callClaude fileContent f Q w :
  (∀ message, Q (Thrown message) w) →
  (∀ message body, Q (Thrown message) (record (Fetch body) w)) →
  (∀ text body, Q (Returned text) (record (Fetch body) w)) →
  wp (callClaude E fileContent f) Q w.
Proof.
  intros Hkey Hfail Hok. unfold callClaude, callClaudeAPI.
  destruct (negb _); [by apply wp_throw|].
  apply wp_try_catch. constructor. unfold post. simpl.
  destruct (fetch E _ _); simpl; auto using wp_throw.
Qed.

End Wp.

(** *** What [documentFile] does to the world *)

Section DocumentFileFacts.

Variable E : env.




Lemma extends_store p n w : extends w (store p n w).
Proof.
  intros k Hk. simpl. destruct (decide (p = k)) as [->|Hne].
  - rewrite lookup_insert_eq. by eexists.
  - by rewrite lookup_insert_ne.
Qed.

Lemma present_extends w w' p : extends w w' → present E w p → present E w' p.
Proof. intros H. apply H. Qed.

Lemma present_store p n w : present E (store (resolve E p) n w) p.
Proof. unfold present. simpl. rewrite lookup_insert_eq. by eexists. Qed.

Lemma present_in_store k n w p : present E w p → present E (store k n w) p.
Proof. apply present_extends, extends_store. Qed.

Lemma present_in_record e w p : present E w p → present E (record e w) p.
Proof. done. Qed.

Lemma make_directories_lookup keys w k :
  nodes (make_directories keys w) !! k
  = match nodes w !! k with
    | Some n => Some n
    | None => if bool_decide (k ∈ keys) then Some Directory else None
    end.
Proof.
  unfold make_directories. simpl.
  induction keys as [|a keys IH]; simpl.
  - by destruct (nodes w !! k).
  - set (m := foldr _ (nodes w) keys) in *.
    assert (match m !! a with
            | Some _ => m
            | None => <[a:=Directory]> m
            end !! k
            = if decide (a = k)
              then match m !! k with
                   | Some n => Some n
                   | None => Some Directory
                   end
              else m !! k) as ->.
    { destruct (decide (a = k)) as [<-|Hne].
      - destruct (m !! a) eqn:Ha; [done|]. by rewrite lookup_insert_eq.
      - destruct (m !! a); [done|]. by rewrite lookup_insert_ne. }
    rewrite IH. destruct (nodes w !! k); [by destruct (decide _)|].
    destruct (decide (a = k)) as [<-|Hne].
    + rewrite (bool_decide_eq_true_2 (a ∈ a :: keys)) by (by left).
      by case_bool_decide.
    + rewrite (bool_decide_ext (k ∈ a :: keys) (k ∈ keys)); [done|].
      rewrite elem_of_cons. split; [by intros [->|?]|by right].
Qed.

Lemma extends_make keys w : extends w (make_directories keys w).
Proof.
  intros k [n Hk]. rewrite make_directories_lookup, Hk. by eexists.
Qed.

Lemma present_make p keys w :
  present E (make_directories (resolve E p :: keys) w) p.
Proof.
  unfold present. rewrite make_directories_lookup.
  destruct (nodes w !! resolve E p); [by eexists|].
  rewrite bool_decide_eq_true_2 by (by left). by eexists.
Qed.

Lemma present_in_make keys w p :
  present E w p → present E (make_directories keys w) p.
Proof. apply present_extends, extends_make. Qed.


Ltac solve_present :=
  repeat first
    [ eassumption
    | apply present_store
    | apply present_make
    | apply present_in_store
    | apply present_in_make
    | apply present_in_record ].

Ltac wp_step :=
  first
    [ apply wp_try_catch | apply wp_bind | apply wp_ret | apply wp_throw
    | apply wp_existsSync; intros ?
    | apply wp_mkdirSync; [intros ?| |done]
    | apply wp_readFileSync; [intros ?|intros ?]
    | apply wp_callClaude; [intros ?|intros ? ?|intros ? ?]
    | apply wp_writeFileSync; [intros ?|]
    | lazymatch goal with
      | |- wp (if negb ?b && _ then _ else _) _ _ => destruct b
      end ];
  cbn beta iota delta [when negb andb].


Lemma documentFile_returned f force w d :
  (documentFile E f force w).1 = Returned d →
  documented_in E (documentFile E f force w).2 f ∧ docPath d = docPathOf E f.
Proof.
  apply (wp_elim (documentFile E f force)
           (fun o w' => o = Returned d →
                        documented_in E w' f ∧ docPath d = docPathOf E f)).
  unfold documentFile, documented_in, docPathOf, docsDirOf.
  repeat wp_step; try discriminate;
    intros [= <-]; (split; [|done]); repeat split; solve_present.
Qed.



End DocumentFileFacts.


(** *** Batches *)

Section BatchFacts.

Variable E : env.








End BatchFacts.

(** C5.  Whatever [documentFile] throws for a file of a batch (its input
    missing, the collaborator failing, a refused file operation) comes back
    as a failed result: the object with the path of the file, the message
    that was thrown as its error, [success] false, [skipped] false and no
    output path.  Every later file is still processed, from the world the
    failure left. *)
Theorem failure_is_recorded_and_batch_goes_on
  (E : env) (force : bool) (before : list string) (f : string)
  (after : list string) (w w1 w2 : world) (results1 : list result)
  (message : string) :
  documentMultipleFiles E before force w = (Returned results1, w1) →
  documentFile E f force w1 = (Thrown message, w2) →
  ∃ results3 w3,
    documentMultipleFiles E after force w2 = (Returned results3, w3)
    ∧ map filePath results3 = after
    ∧ documentMultipleFiles E (before ++ f :: after) force w
      = (Returned
           (results1
            ++ {| filePath := f; r_docPath := None; error := Some message;
                  success := false; r_skipped := false |}
            :: results3), w3).
Proof.
  intros H1 Hf. rewrite documentMultipleFiles_run in H1.
  injection H1 as <- <-.
  eexists _, _. split; [apply documentMultipleFiles_run|].
  split; [apply run_paths|].
  rewrite documentMultipleFiles_run, run_app. simpl. rewrite Hf.
  by destruct (run E force after w2).
Qed.


Lemma failure_is_recorded_and_batch_goes_on_witness :
  ∃ results1 results3 w3,
    documentMultipleFiles example_env ["src/components/Card.tsx"] false
      example_world
    = (Returned results1, after_card)
    ∧ documentFile example_env "src/ghost.ts" false after_card
      = (Thrown (not_found "src/ghost.ts"), after_card)
    ∧ documentMultipleFiles example_env ["src/weird/Thing.js"] false after_card
      = (Returned results3, w3)
    ∧ map filePath results3 = ["src/weird/Thing.js"]
    ∧ documentMultipleFiles example_env
        ["src/components/Card.tsx"; "src/ghost.ts"; "src/weird/Thing.js"]
        false example_world
      = (Returned
           (results1
            ++ {| filePath := "src/ghost.ts"; r_docPath := None;
                  error := Some (not_found "src/ghost.ts");
                  success := false; r_skipped := false |}
            :: results3), w3).
Proof.
  assert (documentMultipleFiles example_env ["src/components/Card.tsx"] false
            example_world
          = (Returned (run example_env false
                         ["src/components/Card.tsx"] example_world).1,
             after_card)) as H1 by (vm_compute; reflexivity).
  assert (documentFile example_env "src/ghost.ts" false after_card
          = (Thrown (not_found "src/ghost.ts"), after_card)) as H2
    by (vm_compute; reflexivity).
  destruct (failure_is_recorded_and_batch_goes_on example_env false
              ["src/components/Card.tsx"] "src/ghost.ts"
              ["src/weird/Thing.js"] example_world after_card after_card
              _ _ H1 H2)
    as (results3 & w3 & H3 & H4 & H5).
  eexists _, results3, w3. split; [exact H1|]. split; [exact H2|].
  split; [exact H3|]. split; [exact H4|exact H5].
Defined.

(** *** Skipping, and the second run *)





(** ** The index *)

Lemma insert_sorted_perm x l : insert_sorted x l ≡ₚ x :: l.
Proof.
  induction l as [|y l IH]; simpl; [done|].
  destruct (String.leb x y); [done|]. by rewrite IH, Permutation_swap.
Qed.

Lemma sort_perm l : sort l ≡ₚ l.
Proof.
  induction l as [|x l IH]; simpl; [done|].
  by rewrite insert_sorted_perm, IH.
Qed.

Lemma fold_left_sum {A} (g : A → nat) (l : list A) (start : nat) :
  fold_left (fun sum x => sum + g x) l start = start + sum_list (map g l).
Proof.
  revert start. induction l as [|x l IH]; intros start; simpl; [lia|].
  rewrite IH. lia.
Qed.

Lemma filter_length_perm {A} (f : A → bool) (l k : list A) :
  l ≡ₚ k → length (List.filter f l) = length (List.filter f k).
Proof.
  induction 1 as [|x l k _ IH|x y l|l k m _ IH1 _ IH2]; simpl.
  - done.
  - destruct (f x); simpl; by rewrite IH.
  - by destruct (f x), (f y).
  - by rewrite IH1.
Qed.

Lemma sections_length docs (categories : list string) :
  length
    (flat_map
       (fun category =>
          let files := sort (markdown docs category) in
          if 0 <? length files then [(category, files)] else [])
       categories)
  = length
      (List.filter (fun category => 0 <? length (markdown docs category))
                   categories).
Proof.
  cbv zeta. induction categories as [|c l IH]; [done|].
  cbn [flat_map List.filter]. rewrite length_app, IH.
  rewrite (Permutation_length (sort_perm (markdown docs c))).
  by destruct (0 <? length (markdown docs c)).
Qed.

(** what the statistics block counts, for every [docs] directory: the
    markdown files of all folders, and the folders themselves, empty ones
    included; the sections are as many as the non-empty categories *)
Lemma statistics_of_index (docs : gmap string entry) :
  ∃ ix,
    generateDocumentationIndex (Some docs) = Some ix
    ∧ totalFiles ix
      = sum_list (map (fun c => length (markdown docs c)) (folders docs))
    ∧ categoryCount ix = length (folders docs)
    ∧ length (sections ix) = length (non_empty_categories docs).
Proof.
  eexists. split; [reflexivity|]. simpl. fold (folders docs).
  split; [|split].
  - rewrite fold_left_sum. simpl. by rewrite (sort_perm (folders docs)).
  - by rewrite (sort_perm (folders docs)).
  - rewrite sections_length. apply filter_length_perm, sort_perm.
Qed.

(** C3, at the failing input.  With one markdown file under "api" and an
    empty "hooks" directory the index has one section and counts one
    file, but its statistics block announces two categories, where one
    holds a markdown file. *)
Theorem statistics_count_empty_categories :
  generateDocumentationIndex (Some docs_with_empty_category)
  = Some {| sections := [("api", ["route.md"])];
            totalFiles := 1;
            categoryCount := 2 |}
  ∧ length (non_empty_categories docs_with_empty_category) = 1.
Proof. split; reflexivity. Qed.


(** ** Scenarios of the specification *)

Example scenario_card :
  getDocumentationFolder "src/components/Card.tsx" = "components".
Proof. reflexivity. Qed.

Example scenario_weird :
  getDocumentationFolder "src/weird/Thing.js" = "weird".
Proof. reflexivity. Qed.

Example scenario_no_parent : getDocumentationFolder "index.ts" = "general".
Proof. reflexivity. Qed.

Example scenario_first_rule_first :
  getDocumentationFolder "src/hooks/components/useCard.ts" = "components".
Proof. reflexivity. Qed.

Example scenario_generated :
  (documentMultipleFiles example_env ["src/components/Card.tsx"] false
     example_world).1
  = Returned
      [generated_result "src/components/Card.tsx"
         {| docPath := "/repo/docs/components/Card.md"; skipped := false |}].
Proof. vm_compute. reflexivity. Qed.

Example scenario_second_run :
  documentMultipleFiles example_env ["src/components/Card.tsx"] false
    after_card
  = (Returned
       [skipped_result "src/components/Card.tsx"
          {| docPath := "/repo/docs/components/Card.md"; skipped := true |}],
     after_card).
Proof. vm_compute. reflexivity. Qed.

Example scenario_missing_second_of_three :
  map (fun r => (success r, r_skipped r))
    (run example_env false
       ["src/components/Card.tsx"; "src/ghost.ts"; "src/weird/Thing.js"]
       example_world).1
  = [(true, false); (false, false); (true, false)].
Proof. vm_compute. reflexivity. Qed.

Example scenario_collaborator_failure :
  (documentMultipleFiles flaky_env
     ["src/components/Card.tsx"; "src/weird/Thing.js"] false example_world).1
  = Returned
      [failed_result "src/components/Card.tsx" "fetch failed";
       generated_result "src/weird/Thing.js"
         {| docPath := "/repo/docs/weird/Thing.md"; skipped := false |}].
Proof. vm_compute. reflexivity. Qed.

Example scenario_write_refused :
  (documentMultipleFiles readonly_env
     ["src/components/Card.tsx"; "src/ghost.ts"] false example_world).1
  = Returned
      [failed_result "src/components/Card.tsx" "EACCES: permission denied";
       failed_result "src/ghost.ts" (not_found "src/ghost.ts")].
Proof. vm_compute. reflexivity. Qed.

(** * Further properties *)

(** ** The classifier: what the patterns accept *)

Lemma strip_Some w s r : JS.strip w s = Some r ↔ s = w +:+ r.
Proof.
  split; [|intros ->; apply strip_app].
  revert s. induction w as [|a w IH]; intros s; simpl.
  - by intros [= ->].
  - destruct s as [|b s]; [done|].
    destruct (Ascii.eqb_spec a b) as [->|]; [|done].
    intros H%IH. by rewrite H.
Qed.

Lemma lit_true w k s : JS.lit w k s = true ↔ ∃ r, s = w +:+ r ∧ k r = true.
Proof.
  unfold JS.lit. split.
  - destruct (JS.strip w s) as [r|] eqn:Hs; [|done].
    intros Hk. exists r. by apply strip_Some in Hs.
  - intros (r & -> & Hk). by rewrite strip_app.
Qed.

Lemma test_true m s : JS.test m s = true ↔ ∃ a b, s = a +:+ b ∧ m b = true.
Proof.
  split.
  - induction s as [|c s IH]; simpl.
    + rewrite orb_false_r. intros H. by exists EmptyString, EmptyString.
    + intros [H|H]%orb_true_iff.
      * by exists EmptyString, (String c s).
      * destruct (IH H) as (a & b & -> & Hb). by exists (String c a), b.
  - intros (a & b & -> & Hb). by apply test_app, test_here.
Qed.

Lemma dot_star_true k s :
  JS.dot_star k s = true
  ↔ ∃ m r, s = m +:+ r ∧ one_line m = true ∧ k r = true.
Proof.
  split.
  - induction s as [|c s IH]; simpl.
    + rewrite orb_false_r. intros H. by exists EmptyString, EmptyString.
    + intros [H|[Hc H]%andb_true_iff]%orb_true_iff.
      * by exists EmptyString, (String c s).
      * destruct (IH H) as (m & r & -> & Hm & Hr).
        exists (String c m), r. split; [done|]. split; [|done].
        unfold one_line in *. simpl. by rewrite Hc, Hm.
  - intros (m & r & -> & Hm & Hr). by apply dot_star_app.
Qed.

Lemma opt_x_eos s :
  JS.opt "x"%char JS.eos s = true ↔ s = EmptyString ∨ s = "x".
Proof.
  split.
  - destruct s as [|b [|c s]]; simpl; [by left| |].
    + rewrite orb_false_r, andb_true_r.
      intros ->%Ascii.eqb_eq. by right.
    + by rewrite andb_false_r.
  - by intros [->| ->].
Qed.

(** X1.  A rule of the form [/\/name\//] accepts a string exactly when
    the string holds the name between two slashes. *)
Theorem segment_rule_accepts (name s : string) :
  JS.test (segment name) s = true
  ↔ ∃ a b, s = a +:+ "/" +:+ name +:+ "/" +:+ b.
Proof.
  rewrite test_true. unfold segment. split.
  - intros (a & r & -> & (r1 & -> & (r2 & -> & (b & -> & _)%lit_true)%lit_true)%lit_true).
    by exists a, b.
  - intros (a & b & ->). exists a, ("/" +:+ name +:+ "/" +:+ b).
    split; [done|]. by rewrite !lit_app.
Qed.

Lemma app_file_true (name s : string) :
  JS.test (app_file name) s = true
  ↔ ∃ a m ext,
      s = a +:+ "/app/" +:+ m +:+ name +:+ ext
      ∧ one_line m = true
      ∧ (ext = ".ts" ∨ ext = ".tsx").
Proof.
  split.
  - rewrite test_true. unfold app_file.
    intros (a & r & -> & (r1 & -> & H)%lit_true).
    apply dot_star_true in H as (m & r2 & -> & Hm & H).
    apply lit_true in H as (r3 & -> & H).
    apply lit_true in H as (r4 & -> & H).
    apply opt_x_eos in H. exists a, m, (".ts" +:+ r4).
    split; [done|]. split; [done|]. by destruct H as [->| ->]; [left|right].
  - intros (a & m & ext & -> & Hm & Hext). by apply app_file_found.
Qed.

(** X2.  A rule of the form [/\/app\/.*name\.tsx?$/] accepts a string
    exactly when the string holds [/app/], then anything free of line
    breaks, and ends in the name followed by [.ts] or [.tsx]. *)
Theorem app_rule_accepts (name s : string) :
  JS.test (app_file name) s = true
  ↔ ∃ a m ext,
      s = a +:+ "/app/" +:+ m +:+ name +:+ ext
      ∧ one_line m = true
      ∧ (ext = ".ts" ∨ ext = ".tsx").
Proof. apply app_file_true. Qed.

(** ** The classifier: casing, separators and the shape of a category *)

Lemma map_units_compose f g s :
  JS.map_units f (JS.map_units g s) = JS.map_units (fun c => f (g c)) s.
Proof. induction s as [|c s IH]; [done|]. simpl. by rewrite IH. Qed.

Lemma map_units_ext f g s :
  (∀ c, f c = g c) → JS.map_units f s = JS.map_units g s.
Proof. intros H. induction s as [|c s IH]; [done|]. simpl. by rewrite H, IH. Qed.

Lemma normalize_units s :
  normalize s = JS.map_units (fun c => JS.lower_unit (JS.unbackslash c)) s.
Proof. unfold normalize, JS.toLowerCase, JS.replace_backslashes.
  apply map_units_compose. Qed.

Lemma normalize_lower s : normalize (JS.toLowerCase s) = normalize s.
Proof.
  rewrite !normalize_units. unfold JS.toLowerCase.
  rewrite map_units_compose. apply map_units_ext.
  by intros [[] [] [] [] [] [] [] []].
Qed.

Lemma normalize_slashes s : normalize (JS.replace_backslashes s) = normalize s.
Proof.
  rewrite !normalize_units. unfold JS.replace_backslashes.
  rewrite map_units_compose. apply map_units_ext.
  by intros [[] [] [] [] [] [] [] []].
Qed.

(** X3.  The category does not depend on the casing of the path nor on
    which of the two separators it is written with: lowercasing the path,
    or turning its backslashes into slashes, gives the same category. *)
Theorem category_ignores_case_and_separators (filePath : string) :
  getDocumentationFolder (JS.toLowerCase filePath)
  = getDocumentationFolder filePath
  ∧ getDocumentationFolder (JS.replace_backslashes filePath)
    = getDocumentationFolder filePath.
Proof.
  unfold getDocumentationFolder.
  by rewrite normalize_lower, normalize_slashes.
Qed.

Lemma normalize_no_backslash s : no_backslash (normalize s) = true.
Proof.
  rewrite normalize_units. unfold no_backslash.
  induction s as [|c s IH]; [done|]. simpl. rewrite IH, andb_true_r.
  by destruct c as [[] [] [] [] [] [] [] []].
Qed.

Lemma split_parts_no_slash s :
  Forall (fun part => no_slash part = true) (JS.split JS.slash s).
Proof.
  unfold no_slash. induction s as [|c s IH]; simpl.
  - by constructor.
  - destruct (Ascii.eqb c JS.slash) eqn:Hc.
    + by constructor.
    + destruct (JS.split JS.slash s) as [|h t].
      * constructor; [|done]. simpl. by rewrite Hc.
      * inversion IH; subst. constructor; [|done]. simpl. by rewrite Hc.
Qed.

Lemma folders_plain m :
  In m folderMappings →
  folder m ≠ EmptyString
  ∧ no_slash (folder m) = true ∧ no_backslash (folder m) = true.
Proof.
  unfold folderMappings. simpl.
  intros H. repeat (destruct H as [<-|H]; [done|]). destruct H.
Qed.

Lemma fallback_plain n :
  no_backslash n = true →
  fallback n ≠ EmptyString
  ∧ no_slash (fallback n) = true ∧ no_backslash (fallback n) = true.
Proof.
  intros Hn. unfold fallback.
  destruct (1 <? _); [|done].
  destruct (negb (String.eqb _ EmptyString)) eqn:He; [|done].
  destruct (_ && _); [|done]. split; [|split].
  - apply negb_true_iff, String.eqb_neq in He. exact He.
  - apply nth_all_units, split_parts_no_slash.
  - by apply nth_all_units, split_all_units.
Qed.

(** X4.  A category is a single path segment: it is never empty and
    holds neither a slash nor a backslash. *)
Theorem category_is_one_name (filePath : string) :
  getDocumentationFolder filePath ≠ EmptyString
  ∧ no_slash (getDocumentationFolder filePath) = true
  ∧ no_backslash (getDocumentationFolder filePath) = true.
Proof.
  unfold getDocumentationFolder.
  destruct (first_match (normalize filePath)) as [m|] eqn:Hm.
  - apply folders_plain. unfold first_match in Hm.
    by apply List.find_some in Hm as [? _].
  - apply fallback_plain, normalize_no_backslash.
Qed.

(** ** The classifier: the other files of an "app" tree *)

Lemma endsWith_app y v : JS.endsWith (y +:+ v) v = true.
Proof.
  induction y as [|c y IH].
  - destruct v; simpl; by rewrite ?Ascii.eqb_refl, ?String.eqb_refl.
  - rewrite append_cons. cbn [JS.endsWith]. rewrite IH. apply orb_true_r.
Qed.

Lemma common_end x u y v :
  x +:+ u = y +:+ v → JS.endsWith u v = true ∨ JS.endsWith v u = true.
Proof.
  revert y. induction x as [|c x IH]; intros y H.
  - left. change (u = y +:+ v) in H. rewrite H. apply endsWith_app.
  - destruct y as [|d y].
    + right. change (String c x +:+ u = v) in H. rewrite <- H.
      apply endsWith_app.
    + rewrite !append_cons in H. injection H as _ H. by eapply IH.
Qed.

Lemma app_file_refuses name1 name2 ext2 x :
  clash name1 name2 = true →
  ext2 = ".ts" ∨ ext2 = ".tsx" →
  JS.test (app_file name1) (x +:+ name2 +:+ ext2) = false.
Proof.
  intros Hclash Hext2. apply not_true_iff_false.
  intros (a & m & ext1 & Heq & _ & Hext1)%app_file_true.
  replace (a +:+ "/app/" +:+ m +:+ name1 +:+ ext1)
    with ((a +:+ "/app/" +:+ m) +:+ (name1 +:+ ext1)) in Heq
    by (by rewrite !append_assoc).
  apply common_end in Heq.
  unfold clash in Hclash. simpl in Hclash.
  rewrite !andb_true_iff, !negb_true_iff in Hclash.
  repeat match goal with H : _ ∧ _ |- _ => destruct H end.
  destruct Hext1 as [->| ->], Hext2 as [->| ->], Heq; congruence.
Qed.

(** X5.  Let no rule of the form [/name/] match the normalized path.  If
    that path holds [/app/], then directories free of line breaks, then a
    final component named "layout", "loading", "error" or "not-found" with
    the extension [.ts] or [.tsx], the category is "layouts", "loading",
    "error" and "error" respectively. *)
Theorem special_files_below_app
  (filePath a name category ext : string) (dirs : list string) :
  In (name, category) app_rules →
  Forall (fun r => JS.test (pattern r) (normalize filePath) = false)
         segment_rules →
  normalize filePath = a +:+ "/app/" +:+ below dirs +:+ name +:+ ext →
  ext = ".ts" ∨ ext = ".tsx" →
  Forall (fun d => one_line d = true) dirs →
  getDocumentationFolder filePath = category.
Proof.
  intros Hrule Hseg Hpath Hext Hdirs.
  assert (JS.test (app_file name) (normalize filePath) = true) as Hthis.
  { rewrite Hpath. by apply app_file_found, below_one_line. }
  assert (∀ other, clash other name = true →
                   JS.test (app_file other) (normalize filePath) = false)
    as Hother.
  { intros other Hclash. rewrite Hpath.
    replace (a +:+ "/app/" +:+ below dirs +:+ name +:+ ext)
      with ((a +:+ "/app/" +:+ below dirs) +:+ name +:+ ext)
      by (by rewrite !append_assoc).
    by apply app_file_refuses. }
  unfold segment_rules, folderMappings in Hseg. simpl in Hseg.
  rewrite !Forall_cons in Hseg.
  destruct Hseg as (H1 & H2 & H3 & H4 & H5 & H6 & H7 & H8 & H9 & _).
  unfold getDocumentationFolder, first_match, folderMappings.
  cbn [List.find pattern] in *.
  rewrite H1, H2, H3, H4, H5, H6, H7, H8, H9.
  unfold app_rules in Hrule. simpl in Hrule.
  destruct Hrule as [Hrule|[Hrule|[Hrule|[Hrule|[]]]]];
    injection Hrule as <- <-;
    rewrite ?(Hother "page"), ?(Hother "layout"), ?(Hother "loading"),
      ?(Hother "error") by reflexivity;
    by rewrite Hthis.
Qed.

Lemma special_files_below_app_witness :
  In ("not-found", "error") app_rules
  ∧ Forall (fun r =>
              JS.test (pattern r) (normalize "src\App\Shop\Not-Found.tsx")
              = false) segment_rules
  ∧ getDocumentationFolder "src\App\Shop\Not-Found.tsx" = "error".
Proof.
  assert (In ("not-found", "error") app_rules) as Hin
    by (simpl; tauto).
  assert (Forall (fun r =>
            JS.test (pattern r) (normalize "src\App\Shop\Not-Found.tsx")
            = false) segment_rules) as Hseg.
  { unfold segment_rules, folderMappings. simpl firstn.
    repeat (constructor; [reflexivity|]). constructor. }
  split; [exact Hin|]. split; [exact Hseg|].
  apply (special_files_below_app "src\App\Shop\Not-Found.tsx" "src"
           "not-found" "error" ".tsx" ["shop"] Hin Hseg).
  - reflexivity.
  - by right.
  - repeat (constructor; [reflexivity|]). constructor.
Defined.

(** ** The pasted answer *)

Lemma collectInput_until_end lines : ∀ documentation last_line rest,
  Forall (fun line => trim line ≠ "END") lines →
  trim last_line = "END" →
  collectInput documentation (lines ++ last_line :: rest)
  = Some (documentation +:+ unlines lines).
Proof.
  induction lines as [|line lines IH]; intros documentation last_line rest
    Hlines Hend; simpl.
  - rewrite Hend. simpl. by rewrite append_nil_r.
  - apply Forall_cons in Hlines as [Hline Hlines].
    apply String.eqb_neq in Hline. rewrite Hline.
    rewrite (IH _ last_line rest) by done.
    by rewrite !append_assoc.
Qed.

Lemma collectInput_no_end lines : ∀ documentation,
  Forall (fun line => trim line ≠ "END") lines →
  collectInput documentation lines = None.
Proof.
  induction lines as [|line lines IH]; intros documentation Hlines; [done|].
  apply Forall_cons in Hlines as [Hline Hlines]. simpl.
  apply String.eqb_neq in Hline. rewrite Hline. by apply IH.
Qed.

(** X6.  [callCursorClaude] resolves to the lines typed before the first
    line that reads END once trimmed, each followed by a line feed; what
    is typed after that line is ignored.  When no such line comes, it
    never resolves. *)
Theorem pasted_answer_ends_at_END (lines : list string) :
  Forall (fun line => trim line ≠ "END") lines →
  (∀ last_line rest,
      trim last_line = "END" →
      callCursorClaude (lines ++ last_line :: rest) = Some (unlines lines))
  ∧ callCursorClaude lines = None.
Proof.
  intros Hlines. split.
  - intros last_line rest Hend. unfold callCursorClaude.
    by rewrite (collectInput_until_end lines EmptyString last_line rest).
  - by apply collectInput_no_end.
Qed.

Lemma pasted_answer_ends_at_END_witness :
  Forall (fun line => trim line ≠ "END") ["# Card"; "The end."]
  ∧ callCursorClaude ["# Card"; "The end."; "  END "; "ignored"]
    = Some ("# Card" +:+ nl +:+ "The end." +:+ nl)
  ∧ callCursorClaude ["# Card"; "The end."] = None.
Proof.
  assert (Forall (fun line => trim line ≠ "END") ["# Card"; "The end."])
    as Hlines by (repeat (constructor; [by vm_compute|]); constructor).
  destruct (pasted_answer_ends_at_END ["# Card"; "The end."] Hlines)
    as [Hsome Hnone].
  split; [exact Hlines|]. split; [|exact Hnone].
  apply (Hsome "  END " ["ignored"]). reflexivity.
Defined.

(** ** More on [documentFile] *)

Section DocumentFileMore.

Variable E : env.

(** the read hands over what the file holds *)
Lemma wp_readFileSync_content p Q w :
  (∀ message, Q (Thrown message) (record (Read p) w)) →
  (∀ content, nodes w !! resolve E p = Some (File content) →
              Q (Returned content) (record (Read p) w)) →
  wp (readFileSync E p) Q w.
Proof.
  intros Hfault Hok. apply wp_attempt; [done|]. constructor. simpl.
  destruct (nodes w !! resolve E p) as [[content|]|]; simpl; auto.
Qed.

(** the call returns what the exchange answered to the prompt *)
Lemma wp_callClaude_answer fileContent f Q w :
  (∀ message, Q (Thrown message) w) →
  (∀ message, truthy (apiKey E) = true →
              Q (Thrown message) (record (Fetch (prompt E fileContent f)) w)) →
  (∀ text, truthy (apiKey E) = true →
           fetch E (clock w) (prompt E fileContent f) = Body text →
           Q (Returned text) (record (Fetch (prompt E fileContent f)) w)) →
  wp (callClaude E fileContent f) Q w.
Proof.
  intros Hkey Hfail Hok. unfold callClaude, callClaudeAPI.
  destruct (truthy (apiKey E)) eqn:Ht; simpl; [|by apply wp_throw].
  apply wp_try_catch. constructor. unfold post. simpl.
  destruct (fetch E _ _) eqn:Hfetch; simpl; auto using wp_throw.
Qed.

Lemma make_directories_file keys w k content :
  nodes (make_directories keys w) !! k = Some (File content) →
  nodes w !! k = Some (File content).
Proof.
  rewrite make_directories_lookup.
  destruct (nodes w !! k); [done|]. by case_bool_decide.
Qed.

Ltac wp_walk :=
  first
    [ apply wp_try_catch | apply wp_bind | apply wp_ret | apply wp_throw
    | apply wp_existsSync; intros ?
    | apply wp_mkdirSync; [intros ?| |done]
    | apply wp_readFileSync_content; [intros ?|intros ? ?]
    | apply wp_callClaude_answer; [intros ?|intros ? ?|intros ? ? ?]
    | apply wp_writeFileSync; [intros ?|]
    | lazymatch goal with
      | |- wp (if negb ?b && _ then _ else _) _ _ => destruct b
      end ];
  cbn beta iota delta [when negb andb].

Lemma documentFile_generated f force w d :
  (documentFile E f force w).1 = Returned d →
  skipped d = false →
  ∃ content text n,
    nodes w !! resolve E f = Some (File content)
    ∧ fetch E n (prompt E content f) = Body text
    ∧ nodes (documentFile E f force w).2 !! resolve E (docPathOf E f)
      = Some (File text)
    ∧ last (trace (documentFile E f force w).2)
      = Some (Write (docPathOf E f) text).
Proof.
  apply (wp_elim (documentFile E f force)
           (fun o w' => o = Returned d → skipped d = false →
              ∃ content text n,
                nodes w !! resolve E f = Some (File content)
                ∧ fetch E n (prompt E content f) = Body text
                ∧ nodes w' !! resolve E (docPathOf E f) = Some (File text)
                ∧ last (trace w') = Some (Write (docPathOf E f) text))).
  unfold documentFile. fold (docsDirOf E f). fold (docPathOf E f).
  repeat wp_walk; try discriminate; try (by intros [= <-]).
  all: intros _ _; exists content, text; eexists;
    cbn [nodes trace store record] in *.
  all: split;
    [ first
        [ eassumption
        | match goal with
          | H : nodes (make_directories _ _) !! _ = Some (File _) |- _ =>
              apply make_directories_file in H; exact H
          end ]
    | ].
  all: split; [eassumption|].
  all: split; [apply lookup_insert_eq | by rewrite last_snoc].
Qed.


Lemma documentFile_forced f w d :
  (documentFile E f true w).1 = Returned d → skipped d = false.
Proof.
  apply (wp_elim (documentFile E f true)
           (fun o _ => o = Returned d → skipped d = false)).
  unfold documentFile. repeat wp_walk; try discriminate; by intros [= <-].
Qed.

Lemma documentFile_frame f force w :
  (∀ k n, k ≠ resolve E (docPathOf E f) →
          nodes w !! k = Some n →
          nodes (documentFile E f force w).2 !! k = Some n)
  ∧ (∀ k, k ≠ resolve E (docPathOf E f) →
          k ∉ (resolve E (docsDirOf E f)
               :: map (resolve E) (parents E (docsDirOf E f))) →
          nodes (documentFile E f force w).2 !! k = nodes w !! k).
Proof.
  apply (wp_elim (documentFile E f force)
           (fun _ w' =>
              (∀ k n, k ≠ resolve E (docPathOf E f) →
                      nodes w !! k = Some n → nodes w' !! k = Some n)
              ∧ (∀ k, k ≠ resolve E (docPathOf E f) →
                      k ∉ (resolve E (docsDirOf E f)
                           :: map (resolve E) (parents E (docsDirOf E f))) →
                      nodes w' !! k = nodes w !! k))).
  unfold documentFile. fold (docsDirOf E f). fold (docPathOf E f).
  repeat wp_walk; (split; [intros k n Hp Hk|intros k Hp Hd]);
    cbn [nodes trace store record];
    rewrite ?lookup_insert_ne, ?make_directories_lookup by done;
    cbn [nodes trace store record];
    rewrite ?Hk; try done;
    destruct (nodes w !! k); try done;
    by rewrite bool_decide_eq_false_2.
Qed.


Lemma documentFile_no_key f force w :
  truthy (apiKey E) = false →
  (∀ d, (documentFile E f force w).1 = Returned d → skipped d = true)
  ∧ ∃ events,
      trace (documentFile E f force w).2 = trace w ++ events
      ∧ Forall (fun e => e = Mkdir (docsDirOf E f) ∨ e = Read f) events.
Proof.
  intros Hkey.
  apply (wp_elim (documentFile E f force)
           (fun o w' =>
              (∀ d, o = Returned d → skipped d = true)
              ∧ ∃ events,
                  trace w' = trace w ++ events
                  ∧ Forall (fun e => e = Mkdir (docsDirOf E f) ∨ e = Read f)
                           events)).
  unfold documentFile. fold (docsDirOf E f). fold (docPathOf E f).
  repeat wp_walk; try congruence;
    (split; [by (intros ? [= <-]) || done|]); simpl;
    first
      [ exists []; by rewrite app_nil_r
      | eexists [_]; split; [reflexivity|];
        repeat (constructor; [by auto|]); constructor
      | eexists [_; _]; split; [by rewrite <- app_assoc|];
        repeat (constructor; [by auto|]); constructor ].
Qed.

End DocumentFileMore.

(** X7.  When [documentFile] returns a result that is not a skip, the
    source was a file, the exchange answered the prompt built from its
    content, and that answer is what the output path now holds: the write
    of it is the last effect. *)
Theorem generated_file_holds_the_answer
  (E : env) (f : string) (force : bool) (w : world) (d : documented) :
  (documentFile E f force w).1 = Returned d →
  skipped d = false →
  ∃ content text n,
    nodes w !! resolve E f = Some (File content)
    ∧ fetch E n (prompt E content f) = Body text
    ∧ nodes (documentFile E f force w).2 !! resolve E (docPathOf E f)
      = Some (File text)
    ∧ last (trace (documentFile E f force w).2)
      = Some (Write (docPathOf E f) text).
Proof. apply documentFile_generated. Qed.

(** X8.  With [force] set, [documentFile] never returns a skip. *)
Theorem forced_is_never_skipped
  (E : env) (f : string) (w : world) (d : documented) :
  (documentFile E f true w).1 = Returned d → skipped d = false.
Proof. apply documentFile_forced. Qed.

(** X9.  Whatever happens, [documentFile] alters no entry of the file
    system that exists, its output file apart, and nothing appears
    anywhere but at the output file, the output directory and the
    directories above it. *)
Theorem only_the_output_changes
  (E : env) (f : string) (force : bool) (w : world) :
  (∀ k n, k ≠ resolve E (docPathOf E f) →
          nodes w !! k = Some n →
          nodes (documentFile E f force w).2 !! k = Some n)
  ∧ (∀ k, k ≠ resolve E (docPathOf E f) →
          k ∉ (resolve E (docsDirOf E f)
               :: map (resolve E) (parents E (docsDirOf E f))) →
          nodes (documentFile E f force w).2 !! k = nodes w !! k).
Proof. apply documentFile_frame. Qed.


(** X11.  Without an API key (the variable unset or empty) nothing is
    generated: [documentFile] skips or throws, and attempts at most the
    creation of the output directory and the read of the source, never
    the exchange nor a write. *)
Theorem no_key_no_generation
  (E : env) (f : string) (force : bool) (w : world) :
  truthy (apiKey E) = false →
  (∀ d, (documentFile E f force w).1 = Returned d → skipped d = true)
  ∧ ∃ events,
      trace (documentFile E f force w).2 = trace w ++ events
      ∧ Forall (fun e => e = Mkdir (docsDirOf E f) ∨ e = Read f) events.
Proof. apply documentFile_no_key. Qed.

Lemma generated_file_holds_the_answer_witness :
  (documentFile example_env "src/components/Card.tsx" false example_world).1
  = Returned {| docPath := "/repo/docs/components/Card.md"; skipped := false |}
  ∧ ∃ content text n,
      nodes example_world !! "src/components/Card.tsx" = Some (File content)
      ∧ fetch example_env n (prompt example_env content "src/components/Card.tsx")
        = Body text
      ∧ nodes after_card !! "/repo/docs/components/Card.md" = Some (File text)
      ∧ last (trace after_card)
        = Some (Write "/repo/docs/components/Card.md" text).
Proof.
  assert ((documentFile example_env "src/components/Card.tsx" false
             example_world).1
          = Returned {| docPath := "/repo/docs/components/Card.md";
                        skipped := false |}) as H by (vm_compute; reflexivity).
  split; [exact H|].
  exact (generated_file_holds_the_answer example_env
           "src/components/Card.tsx" false example_world _ H eq_refl).
Defined.

Lemma forced_is_never_skipped_witness :
  (documentFile example_env "src/components/Card.tsx" true after_card).1
  = Returned {| docPath := "/repo/docs/components/Card.md"; skipped := false |}
  ∧ skipped {| docPath := "/repo/docs/components/Card.md"; skipped := false |}
    = false.
Proof.
  assert ((documentFile example_env "src/components/Card.tsx" true
             after_card).1
          = Returned {| docPath := "/repo/docs/components/Card.md";
                        skipped := false |}) as H by (vm_compute; reflexivity).
  split; [exact H|].
  exact (forced_is_never_skipped example_env "src/components/Card.tsx"
           after_card _ H).
Defined.

Lemma only_the_output_changes_witness :
  "src/weird/Thing.js"
  ≠ resolve example_env (docPathOf example_env "src/components/Card.tsx")
  ∧ nodes (documentFile example_env "src/components/Card.tsx" false
             example_world).2 !! "src/weird/Thing.js"
    = Some (File "module.exports = {};")
  ∧ ("/repo/docs/hooks"
     ∉ (resolve example_env (docsDirOf example_env "src/components/Card.tsx")
        :: map (resolve example_env)
             (parents example_env
                (docsDirOf example_env "src/components/Card.tsx"))))
  ∧ nodes (documentFile example_env "src/components/Card.tsx" false
             example_world).2 !! "/repo/docs/hooks"
    = nodes example_world !! "/repo/docs/hooks".
Proof.
  assert ("src/weird/Thing.js"
          ≠ resolve example_env
              (docPathOf example_env "src/components/Card.tsx")) as H1
    by (by vm_compute).
  assert ("/repo/docs/hooks"
          ≠ resolve example_env
              (docPathOf example_env "src/components/Card.tsx")) as H2
    by (by vm_compute).
  assert ("/repo/docs/hooks"
          ∉ (resolve example_env
               (docsDirOf example_env "src/components/Card.tsx")
             :: map (resolve example_env)
                  (parents example_env
                     (docsDirOf example_env "src/components/Card.tsx"))))
    as H3.
  { intros Hin%list_elem_of_In. vm_compute in Hin.
    decompose [or] Hin; discriminate || contradiction. }
  destruct (only_the_output_changes example_env "src/components/Card.tsx"
              false example_world) as [Hkept Hframe].
  split; [exact H1|]. split; [by apply Hkept|].
  split; [exact H3|]. by apply Hframe.
Defined.


Lemma no_key_no_generation_witness :
  truthy (apiKey keyless_env) = false
  ∧ (∀ d, (documentFile keyless_env "src/components/Card.tsx" false
             example_world).1 = Returned d → skipped d = true)
  ∧ ∃ events,
      trace (documentFile keyless_env "src/components/Card.tsx" false
               example_world).2
      = trace example_world ++ events
      ∧ Forall (fun e =>
                  e = Mkdir (docsDirOf keyless_env "src/components/Card.tsx")
                  ∨ e = Read "src/components/Card.tsx") events.
Proof.
  split; [reflexivity|].
  apply (no_key_no_generation keyless_env "src/components/Card.tsx" false
           example_world). reflexivity.
Defined.



(** ** More on batches *)

(** X13.  A batch over a list put together from two is the batch over
    the first followed, in the world it left, by the batch over the
    second: the results are appended. *)
Theorem batch_of_concatenation
  (E : env) (force : bool) (l1 l2 : list string) (w : world) :
  ∃ results1 w1 results2 w2,
    documentMultipleFiles E l1 force w = (Returned results1, w1)
    ∧ documentMultipleFiles E l2 force w1 = (Returned results2, w2)
    ∧ documentMultipleFiles E (l1 ++ l2) force w
      = (Returned (results1 ++ results2), w2).
Proof.
  eexists _, _, _, _. rewrite !documentMultipleFiles_run.
  split; [reflexivity|]. split; [reflexivity|]. by rewrite run_app.
Qed.

Lemma run_forced (E : env) (filePaths : list string) (w : world) :
  Forall (fun r => r_skipped r = false) (run E true filePaths w).1.
Proof.
  revert w. induction filePaths as [|f rest IH]; intros w; simpl.
  - constructor.
  - pose proof (documentFile_forced E f w) as Hf.
    destruct (documentFile E f true w) as [o w1]. specialize (IH w1).
    destruct (run E true rest w1) as [rs w2]. constructor; [|done].
    destruct o as [d|message]; simpl; [|done].
    by rewrite (Hf d eq_refl).
Qed.

(** X14.  With [force] set, no result of a batch is a skip. *)
Theorem forced_batch_skips_nothing
  (E : env) (filePaths : list string) (w : world) :
  ∃ results w',
    documentMultipleFiles E filePaths true w = (Returned results, w')
    ∧ Forall (fun r => r_skipped r = false) results.
Proof.
  eexists _, _. split; [apply documentMultipleFiles_run|]. apply run_forced.
Qed.

Lemma run_shapes (E : env) (force : bool) (filePaths : list string) (w : world) :
  Forall (fun r =>
            (success r = true →
             r_docPath r = Some (docPathOf E (filePath r)) ∧ error r = None)
            ∧ (success r = false → r_docPath r = None))
         (run E force filePaths w).1.
Proof.
  revert w. induction filePaths as [|f rest IH]; intros w; simpl.
  - constructor.
  - pose proof (documentFile_returned E f force w) as Hf.
    destruct (documentFile E f force w) as [o w1]. specialize (IH w1).
    destruct (run E force rest w1) as [rs w2]. constructor; [|done].
    destruct o as [d|message]; simpl; [|done].
    destruct (Hf d eq_refl) as [_ Hd].
    destruct (skipped d); simpl; by rewrite Hd.
Qed.

(** X15.  A successful result of a batch, generated or skipped, carries
    the output path computed from its own input path and no error; a
    failed result carries no output path. *)
Theorem results_carry_their_output_path
  (E : env) (force : bool) (filePaths : list string) (w : world) :
  ∃ results w',
    documentMultipleFiles E filePaths force w = (Returned results, w')
    ∧ Forall (fun r =>
                (success r = true →
                 r_docPath r = Some (docPathOf E (filePath r))
                 ∧ error r = None)
                ∧ (success r = false → r_docPath r = None))
             results.
Proof.
  eexists _, _. split; [apply documentMultipleFiles_run|]. apply run_shapes.
Qed.

Lemma run_kept (E : env) (force : bool) (filePaths : list string) k n : ∀ w,
  Forall (fun f => k ≠ resolve E (docPathOf E f)) filePaths →
  nodes w !! k = Some n →
  nodes (run E force filePaths w).2 !! k = Some n.
Proof.
  induction filePaths as [|f rest IH]; intros w Hk Hn; simpl; [done|].
  apply Forall_cons in Hk as [Hp Hk].
  pose proof (proj1 (documentFile_frame E f force w) k n Hp Hn) as Hf.
  destruct (documentFile E f force w) as [o w1]. specialize (IH w1 Hk Hf).
  by destruct (run E force rest w1) as [rs w2].
Qed.

Lemma run_frame (E : env) (force : bool) (filePaths : list string) k : ∀ w,
  Forall (fun f => k ≠ resolve E (docPathOf E f)
                   ∧ k ∉ (resolve E (docsDirOf E f)
                          :: map (resolve E) (parents E (docsDirOf E f))))
         filePaths →
  nodes (run E force filePaths w).2 !! k = nodes w !! k.
Proof.
  induction filePaths as [|f rest IH]; intros w Hk; simpl; [done|].
  apply Forall_cons in Hk as [[Hp Hd] Hk].
  pose proof (proj2 (documentFile_frame E f force w) k Hp Hd) as Hf.
  destruct (documentFile E f force w) as [o w1]. specialize (IH w1 Hk).
  destruct (run E force rest w1) as [rs w2]. simpl in *. congruence.
Qed.

(** X16.  A batch alters no entry of the file system that exists, the
    output files of its inputs apart, and nothing appears anywhere but
    at the output files, the output directories and the directories
    above them: a source that is none of these is left as it was. *)
Theorem batch_changes_outputs_only
  (E : env) (force : bool) (filePaths : list string) (w : world) :
  (∀ k n,
      Forall (fun f => k ≠ resolve E (docPathOf E f)) filePaths →
      nodes w !! k = Some n →
      nodes (documentMultipleFiles E filePaths force w).2 !! k = Some n)
  ∧ (∀ k,
        Forall (fun f =>
                  k ≠ resolve E (docPathOf E f)
                  ∧ k ∉ (resolve E (docsDirOf E f)
                         :: map (resolve E) (parents E (docsDirOf E f))))
               filePaths →
        nodes (documentMultipleFiles E filePaths force w).2 !! k
        = nodes w !! k).
Proof.
  split.
  - intros k n Hk Hn. rewrite documentMultipleFiles_run. simpl.
    by apply run_kept.
  - intros k Hk. rewrite documentMultipleFiles_run. simpl.
    by apply run_frame.
Qed.

Lemma batch_changes_outputs_only_witness :
  Forall (fun f =>
            "src/weird/Thing.js" ≠ resolve example_env (docPathOf example_env f))
         ["src/components/Card.tsx"; "src/weird/Thing.js"]
  ∧ nodes after_both !! "src/weird/Thing.js"
    = Some (File "module.exports = {};").
Proof.
  assert (Forall (fun f =>
            "src/weird/Thing.js" ≠ resolve example_env (docPathOf example_env f))
            ["src/components/Card.tsx"; "src/weird/Thing.js"]) as H.
  { repeat (constructor; [by vm_compute|]). constructor. }
  split; [exact H|].
  exact (proj1 (batch_changes_outputs_only example_env false _ example_world)
           _ _ H eq_refl).
Defined.

(** ** The report and its grouping *)

(** X17.  The three lists of the report split the results: every result
    is counted once, as generated, as skipped or as failed. *)
Theorem report_counts_every_result (results : list result) :
  length (successful results) + length (skipped_ones results)
  + length (failed results)
  = length results.
Proof.
  unfold successful, skipped_ones, failed.
  induction results as [|r results IH]; simpl; [done|].
  destruct (success r), (r_skipped r); simpl; lia.
Qed.

Lemma group_thrown (E : env) (l : list result) message :
  fold_left (group_step E) l (Thrown message) = Thrown message.
Proof. induction l as [|r l IH]; simpl; auto. Qed.

Lemma group_fold (E : env) (l : list result) : ∀ acc,
  (∀ c, c ∈ inherited → acc !! c = None) →
  match fold_left (group_step E) l (Returned acc) with
  | Thrown _ =>
      ∃ r, In r l ∧ getDocumentationFolder (filePath r) ∈ inherited
  | Returned m =>
      (∀ r, In r l → getDocumentationFolder (filePath r) ∉ inherited)
      ∧ ∀ c, m !! c
             = match listed E c l with
               | [] => acc !! c
               | names => Some (default [] (acc !! c) ++ names)
               end
  end.
Proof.
  induction l as [|r l IH]; intros acc Hacc; simpl.
  - split; [by intros r []|done].
  - set (category := getDocumentationFolder (filePath r)).
    set (name := path_basename E (filePath r) EmptyString).
    assert (∀ files,
              (acc !! category = None → category ∉ inherited) →
              match fold_left (group_step E) l
                      (Returned (<[category := files ++ [name]]> acc)) with
              | Thrown _ =>
                  ∃ r0, (r = r0 ∨ In r0 l)
                        ∧ getDocumentationFolder (filePath r0) ∈ inherited
              | Returned m =>
                  (∀ r0, r = r0 ∨ In r0 l →
                         getDocumentationFolder (filePath r0) ∉ inherited)
                  ∧ ∀ c, m !! c
                         = match listed E c (r :: l) with
                           | [] => acc !! c
                           | names =>
                               Some (default [] (<[category := files]> acc !! c)
                                     ++ names)
                           end
              end) as Hstep.
    { intros files Hcat.
      assert (category ∉ inherited) as Hnot.
      { destruct (acc !! category) eqn:Hl; [|by apply Hcat].
        intros Hin. by rewrite (Hacc _ Hin) in Hl. }
      specialize (IH (<[category := files ++ [name]]> acc)).
      destruct (fold_left _ l _) as [m|message].
      - destruct IH as [Hl Hm].
        { intros c Hc. rewrite lookup_insert_ne; [by apply Hacc|].
          by intros ->. }
        split; [by intros r0 [<-|?]; auto|].
        intros c. rewrite Hm. unfold listed. simpl.
        fold category. fold name.
        destruct (String.eqb_spec category c) as [->|Hne].
        + rewrite !lookup_insert_eq. simpl.
          destruct (map _ (List.filter _ l)); simpl.
          * done.
          * by rewrite <- app_assoc.
        + by rewrite !lookup_insert_ne.
      - destruct IH as (r0 & Hr0 & Hin).
        { intros c Hc. rewrite lookup_insert_ne; [by apply Hacc|].
          by intros ->. }
        exists r0. auto. }
    destruct (acc !! category) as [files|] eqn:Hl.
    + specialize (Hstep files).
      destruct (fold_left _ l _) as [m|message]; [|by apply Hstep].
      destruct Hstep as [H1 H2]; [done|]. split; [done|].
      intros c. rewrite H2. destruct (listed E c (r :: l)); [done|].
      destruct (decide (category = c)) as [<-|Hne].
      * by rewrite lookup_insert_eq, Hl.
      * by rewrite lookup_insert_ne.
    + case_bool_decide as Hin.
      * rewrite group_thrown. exists r. auto.
      * specialize (Hstep []). simpl in Hstep.
        destruct (fold_left _ l _) as [m|message]; [|by apply Hstep].
        destruct Hstep as [H1 H2]; [done|]. split; [done|].
        intros c. rewrite H2. destruct (listed E c (r :: l)); [done|].
        destruct (decide (category = c)) as [<-|Hne].
        -- by rewrite lookup_insert_eq, Hl.
        -- by rewrite lookup_insert_ne.
Qed.

Lemma inherited_lowercase c :
  c ∈ inherited → no_upper c = true → c = "constructor" ∨ c = "__proto__".
Proof.
  unfold inherited. rewrite !elem_of_cons, elem_of_nil.
  intros H Hc. decompose [or] H; subst; try discriminate; auto. done.
Qed.

Lemma byCategory_cases (E : env) (results : list result) :
  match byCategory E results with
  | Thrown _ =>
      ∃ r, In r (successful results)
           ∧ (getDocumentationFolder (filePath r) = "constructor"
              ∨ getDocumentationFolder (filePath r) = "__proto__")
  | Returned m =>
      (∀ r, In r (successful results) →
            getDocumentationFolder (filePath r) ≠ "constructor"
            ∧ getDocumentationFolder (filePath r) ≠ "__proto__")
      ∧ ∀ c, m !! c
             = match listed E c (successful results) with
               | [] => None
               | names => Some names
               end
  end.
Proof.
  unfold byCategory.
  pose proof (group_fold E (successful results) ∅) as H.
  destruct (fold_left _ _ _) as [m|message] eqn:Hfold.
  - destruct H as [Hno Hm]; [done|]. split.
    + intros r Hr. specialize (Hno r Hr).
      split; intros Heq; apply Hno; rewrite Heq; unfold inherited;
        set_solver.
    + intros c. rewrite Hm, lookup_empty. by destruct (listed _ _ _).
  - destruct H as (r & Hr & Hin); [done|].
    exists r. split; [done|].
    apply inherited_lowercase; [done|apply category_no_upper].
Qed.

(** X18.  The grouping of the generated files by category throws exactly
    when one of them has the category "constructor" or "__proto__", names
    every object inherits; otherwise each category that occurs holds the
    base names of its generated files in the order of the report, and no
    other category is there. *)
Theorem grouping_by_category (E : env) (results : list result) :
  ((∃ message, byCategory E results = Thrown message)
   ↔ ∃ r, In r (successful results)
          ∧ (getDocumentationFolder (filePath r) = "constructor"
             ∨ getDocumentationFolder (filePath r) = "__proto__"))
  ∧ ∀ m, byCategory E results = Returned m →
         ∀ c, m !! c
              = match listed E c (successful results) with
                | [] => None
                | names => Some names
                end.
Proof.
  pose proof (byCategory_cases E results) as H.
  destruct (byCategory E results) as [m|message]; split.
  - split; [by intros [? ?]|]. intros (r & Hr & Hc).
    destruct (proj1 H r Hr) as [H1 H2]. by destruct Hc.
  - intros ? [= <-]. apply H.
  - split; [by intros _|]. intros _. by exists message.
  - by intros ? ?.
Qed.

Lemma grouping_by_category_witness :
  (∃ message,
      byCategory example_env
        [generated_result "src/constructor/Build.js"
           {| docPath := "/repo/docs/constructor/Build.md"; skipped := false |}]
      = Thrown message)
  ∧ ∃ m,
      byCategory example_env
        [generated_result "src/weird/Thing.js"
           {| docPath := "/repo/docs/weird/Thing.md"; skipped := false |}]
      = Returned m
      ∧ m !! "weird" = Some ["Thing.js"].
Proof.
  split.
  - apply (proj1 (grouping_by_category example_env _)).
    eexists. split; [by left|]. left. reflexivity.
  - destruct (byCategory example_env
                [generated_result "src/weird/Thing.js"
                   {| docPath := "/repo/docs/weird/Thing.md";
                      skipped := false |}]) as [m|message] eqn:Hm;
      [|by vm_compute in Hm].
    exists m. split; [done|].
    exact (proj2 (grouping_by_category example_env _) m Hm "weird").
Defined.

(** ** [main] *)

Section MainFacts.

Variable E : env.
Variable discover : world → option string → list string.

Lemma force_flag_api a b :
  existsb (String.eqb "--force") (a ++ "--api" :: b)
  = existsb (String.eqb "--force") (a ++ b).
Proof. by rewrite !existsb_app. Qed.

Lemma filteredArgs_api a b :
  filteredArgs (a ++ "--api" :: b) = filteredArgs (a ++ b).
Proof. unfold filteredArgs. by rewrite !List.filter_app. Qed.

Lemma main_api_inert a b w :
  a ++ b ≠ [] →
  main E discover (a ++ "--api" :: b) w = main E discover (a ++ b) w.
Proof.
  intros Hne. unfold main.
  rewrite force_flag_api, filteredArgs_api.
  destruct (a ++ b) eqn:Hab; [done|]. by destruct a.
Qed.



Lemma main_all args others w :
  filteredArgs args = "--all" :: others →
  let force := existsb (String.eqb "--force") args in
  let batch := documentMultipleFiles E (discover w None) force w in
  ∃ results,
    batch.1 = Returned results
    ∧ map filePath results = discover w None
    ∧ ((∃ r, In r (successful results)
             ∧ (getDocumentationFolder (filePath r) = "constructor"
                ∨ getDocumentationFolder (filePath r) = "__proto__")) →
       main E discover args w
       = ({| exitCode := 1; reported := Some results; indexed := false |},
          batch.2))
    ∧ ((∀ r, In r (successful results) →
             getDocumentationFolder (filePath r) ≠ "constructor"
             ∧ getDocumentationFolder (filePath r) ≠ "__proto__") →
       main E discover args w
       = ({| exitCode := 0; reported := Some results;
             indexed := rebuilds_index results |}, batch.2)).
Proof.
  intros Hf force batch. unfold batch.
  rewrite documentMultipleFiles_run. simpl.
  eexists. split; [reflexivity|]. split; [apply run_paths|].
  unfold main.
  assert ((length args =? 0) = false) as -> by (by destruct args).
  rewrite Hf. unfold gather. rewrite String.eqb_refl.
  rewrite documentMultipleFiles_run. fold force.
  set (results := (run E force (discover w None) w).1).
  pose proof (byCategory_cases E results) as Hcases.
  split.
  - intros (r & Hr & Hc).
    assert ((0 <? length (successful results)) = true) as ->.
    { destruct (successful results); [done|reflexivity]. }
    destruct (byCategory E results) as [m|message]; [|done].
    destruct (proj1 Hcases r Hr) as [H1 H2]. by destruct Hc.
  - intros Hno. destruct (0 <? length (successful results)); [|done].
    destruct (byCategory E results) as [m|message]; [done|].
    destruct Hcases as (r & Hr & Hc). destruct (Hno r Hr). by destruct Hc.
Qed.

End MainFacts.

(** X19.  The flag [--api] changes nothing: among other arguments it can
    be dropped, wherever it stands, without any effect on what [main]
    does. *)
Theorem api_flag_is_inert
  (E : env) (discover : world → option string → list string)
  (a b : list string) (w : world) :
  a ++ b ≠ [] →
  main E discover (a ++ "--api" :: b) w = main E discover (a ++ b) w.
Proof. apply main_api_inert. Qed.


(** X21.  With [--all], [main] reports one result per discovered file, in
    order, failures included, and ends with status 0 and the index
    rebuilt as the report commands; unless a generated file has the
    category "constructor" or "__proto__": then the grouping throws
    after the report was printed, and the process ends with status 1,
    the index not rebuilt. *)
Theorem batch_mode_status
  (E : env) (discover : world → option string → list string)
  (args others : list string) (w : world) :
  filteredArgs args = "--all" :: others →
  let force := existsb (String.eqb "--force") args in
  let batch := documentMultipleFiles E (discover w None) force w in
  ∃ results,
    batch.1 = Returned results
    ∧ map filePath results = discover w None
    ∧ ((∃ r, In r (successful results)
             ∧ (getDocumentationFolder (filePath r) = "constructor"
                ∨ getDocumentationFolder (filePath r) = "__proto__")) →
       main E discover args w
       = ({| exitCode := 1; reported := Some results; indexed := false |},
          batch.2))
    ∧ ((∀ r, In r (successful results) →
             getDocumentationFolder (filePath r) ≠ "constructor"
             ∧ getDocumentationFolder (filePath r) ≠ "__proto__") →
       main E discover args w
       = ({| exitCode := 0; reported := Some results;
             indexed := rebuilds_index results |}, batch.2)).
Proof. apply main_all. Qed.

Lemma api_flag_is_inert_witness :
  ["--force"] ++ ["src/components/Card.tsx"] ≠ []
  ∧ main example_env example_discover
      (["--force"] ++ "--api" :: ["src/components/Card.tsx"]) example_world
    = main example_env example_discover
        (["--force"] ++ ["src/components/Card.tsx"]) example_world.
Proof.
  assert (["--force"] ++ ["src/components/Card.tsx"] ≠ []) as H by done.
  split; [exact H|].
  exact (api_flag_is_inert example_env example_discover ["--force"]
           ["src/components/Card.tsx"] example_world H).
Defined.


Lemma batch_mode_status_witness :
  filteredArgs ["--all"; "--force"] = ["--all"]
  ∧ (main example_env example_discover ["--all"; "--force"] example_world).1
    = {| exitCode := 0;
         reported :=
           Some
             [generated_result "src/components/Card.tsx"
                {| docPath := "/repo/docs/components/Card.md";
                   skipped := false |};
              generated_result "src/weird/Thing.js"
                {| docPath := "/repo/docs/weird/Thing.md";
                   skipped := false |}];
         indexed := true |}
  ∧ (main example_env constructor_discover ["--all"] constructor_world).1
    = {| exitCode := 1;
         reported :=
           Some
             [generated_result "src/constructor/Build.js"
                {| docPath := "/repo/docs/constructor/Build.md";
                   skipped := false |}];
         indexed := false |}.
Proof.
  split; [reflexivity|]. split.
  - destruct (batch_mode_status example_env example_discover
                ["--all"; "--force"] [] example_world eq_refl)
      as (results & H1 & _ & _ & H4).
    vm_compute in H1. injection H1 as <-.
    rewrite H4; [reflexivity|].
    intros r [<-|[<-|[]]]; split; by vm_compute.
  - destruct (batch_mode_status example_env constructor_discover
                ["--all"] [] constructor_world eq_refl)
      as (results & H1 & _ & H3 & _).
    vm_compute in H1. injection H1 as <-.
    rewrite H3; [reflexivity|].
    eexists. split; [by left|]. left. reflexivity.
Defined.

(** ** The discovery of the files *)

Section DiscoveryFacts.

Variable join : string → string → string.
Variable extname : string → string.
Variable exts : list string.

Lemma disk_induction (P : disk → Prop) :
  P RegularFile →
  P Special →
  (∀ children, Forall (fun it => P it.2) children → P (Dir children)) →
  ∀ t, P t.
Proof.
  intros Hfile Hspecial Hdir. fix IH 1. intros [| |children].
  - exact Hfile.
  - exact Hspecial.
  - apply Hdir. induction children as [|[i t] rest IHrest].
    + constructor.
    + constructor; [exact (IH t)|exact IHrest].
Qed.

Lemma visit_dir fullPath item children :
  visit join extname exts fullPath item (Dir children)
  = if descends item then scanDirectory join extname exts fullPath children
    else [].
Proof.
  simpl. destruct (descends item); [|done]. unfold scanDirectory.
  induction children as [|[i t] rest IH]; [done|].
  simpl. by rewrite IH.
Qed.

Lemma scanDirectory_In dir items p :
  In p (scanDirectory join extname exts dir items)
  ↔ ∃ i t, In (i, t) items ∧ In p (visit join extname exts (join dir i) i t).
Proof.
  unfold scanDirectory. rewrite in_flat_map. split.
  - intros ([i t] & Hin & Hp). by exists i, t.
  - intros (i & t & Hin & Hp). by exists (i, t).
Qed.

Lemma visit_found t : ∀ dir items item p,
  In (item, t) items →
  In p (visit join extname exts (join dir item) item t) →
  found join extname exts dir items p.
Proof.
  induction t as [| |children IH] using disk_induction;
    intros dir items item p Hin Hp.
  - simpl in Hp. destruct (includes exts (extname item)) eqn:Hext; [|done].
    destruct Hp as [<-|[]]. by apply found_here.
  - done.
  - rewrite visit_dir in Hp. destruct (descends item) eqn:Hd; [|done].
    apply scanDirectory_In in Hp as (i & t & Hit & Hp).
    apply (found_below _ _ _ dir items item children p Hin Hd).
    rewrite List.Forall_forall in IH.
    exact (IH (i, t) Hit (join dir item) children i p Hit Hp).
Qed.

Lemma found_scanned dir items p :
  found join extname exts dir items p →
  In p (scanDirectory join extname exts dir items).
Proof.
  induction 1 as [dir items item Hin Hext|dir items item children p Hin Hd _ IH];
    apply scanDirectory_In.
  - exists item, RegularFile. split; [done|]. simpl. rewrite Hext. by left.
  - exists item, (Dir children). split; [done|].
    by rewrite visit_dir, Hd.
Qed.

Lemma scanDirectory_found dir items p :
  In p (scanDirectory join extname exts dir items)
  ↔ found join extname exts dir items p.
Proof.
  split; [|apply found_scanned].
  intros (i & t & Hin & Hp)%scanDirectory_In. by eapply visit_found.
Qed.

Lemma scanDirectory_pruned dir before item children after :
  descends item = false →
  scanDirectory join extname exts dir (before ++ (item, Dir children) :: after)
  = scanDirectory join extname exts dir (before ++ after).
Proof.
  intros Hd. unfold scanDirectory. rewrite !flat_map_app.
  cbn [flat_map fst snd]. by rewrite visit_dir, Hd.
Qed.

End DiscoveryFacts.

(** X22.  The scan of a directory returns a path exactly when it is the
    path of a regular file whose name has an accepted extension and which
    is reached through directories that are neither hidden (a name that
    starts with a dot) nor called [node_modules].  The name of the file
    itself may start with a dot. *)
Theorem scan_finds_the_reachable_files
  (join : string → string → string) (extname : string → string)
  (exts : list string) (dir : string) (items : list (string * disk))
  (p : string) :
  In p (scanDirectory join extname exts dir items)
  ↔ found join extname exts dir items p.
Proof. apply scanDirectory_found. Qed.

(** X23.  A directory that is hidden or called [node_modules] adds
    nothing to the scan, whatever it holds: the result is the one for the
    listing without it. *)
Theorem skipped_directory_adds_nothing
  (join : string → string → string) (extname : string → string)
  (exts : list string) (dir item : string)
  (before after children : list (string * disk)) :
  descends item = false →
  scanDirectory join extname exts dir (before ++ (item, Dir children) :: after)
  = scanDirectory join extname exts dir (before ++ after).
Proof. apply scanDirectory_pruned. Qed.

Lemma skipped_directory_adds_nothing_witness :
  descends "node_modules" = false
  ∧ scanDirectory slash_join extension extensions "src"
      ([(".eslintrc.js", RegularFile)]
       ++ ("node_modules", Dir [("index.js", RegularFile)])
       :: [("a.ts", RegularFile)])
    = scanDirectory slash_join extension extensions "src"
        ([(".eslintrc.js", RegularFile)] ++ [("a.ts", RegularFile)]).
Proof.
  split; [reflexivity|].
  apply (skipped_directory_adds_nothing slash_join extension extensions
           "src" "node_modules"). reflexivity.
Defined.

Example scenario_scan :
  findFilesToDocument slash_join extension extensions "./src"
    (Some (Dir example_tree))
  = Returned ["./src/.eslintrc.js"; "./src/components/Card.tsx"].
Proof. reflexivity. Qed.

(** ** More on the index *)

Lemma insert_sorted_Sorted x l :
  Sorted String.le l → Sorted String.le (insert_sorted x l).
Proof.
  induction 1 as [|y l Hl IH Hy]; simpl.
  - by repeat constructor.
  - destruct (String.leb x y) eqn:Hxy.
    + constructor; [by constructor|]. constructor.
      unfold String.le. by rewrite Hxy.
    + assert (String.le y x) as Hyx.
      { destruct (total String.le x y) as [H|H]; [|done].
        unfold String.le in H. by rewrite Hxy in H. }
      constructor; [done|].
      destruct Hy as [|z l Hyz]; simpl; [by constructor|].
      destruct (String.leb x z); by constructor.
Qed.

Lemma sort_Sorted l : Sorted String.le (sort l).
Proof.
  induction l as [|x l IH]; simpl; [constructor|].
  by apply insert_sorted_Sorted.
Qed.

Lemma sort_StronglySorted l : StronglySorted String.le (sort l).
Proof. apply Sorted_StronglySorted; [apply _|apply sort_Sorted]. Qed.

(** X24.  [sort] models [Array.prototype.sort] on strings for what it
    returns: the rearrangement of the list in ascending order of code
    units, which is unique. *)
Theorem sort_is_the_ascending_rearrangement (l : list string) :
  sort l ≡ₚ l
  ∧ StronglySorted String.le (sort l)
  ∧ ∀ k, k ≡ₚ l → Sorted String.le k → k = sort l.
Proof.
  split; [apply sort_perm|]. split.
  - apply sort_StronglySorted.
  - intros k Hk Hs. apply (Sorted_unique String.le); [done|apply sort_Sorted|].
    by rewrite Hk, sort_perm.
Qed.

Lemma StronglySorted_filter {A} (R : relation A) (f : A → bool) l :
  StronglySorted R l → StronglySorted R (List.filter f l).
Proof.
  induction 1 as [|x l Hl IH Hx]; simpl; [constructor|].
  destruct (f x); [|done]. constructor; [done|].
  rewrite List.Forall_forall in *. intros y [Hy _]%List.filter_In. by apply Hx.
Qed.

Lemma sections_categories docs (categories : list string) :
  map fst
    (flat_map
       (fun category =>
          let files := sort (markdown docs category) in
          if 0 <? length files then [(category, files)] else [])
       categories)
  = List.filter (fun category => 0 <? length (markdown docs category))
                categories.
Proof.
  cbv zeta. induction categories as [|c l IH]; [done|].
  cbn [flat_map List.filter]. rewrite map_app, IH.
  rewrite (Permutation_length (sort_perm (markdown docs c))).
  by destruct (0 <? length (markdown docs c)).
Qed.

Lemma sections_files docs (categories : list string) :
  Forall (fun section =>
            section.2 = sort (markdown docs section.1) ∧ section.2 ≠ [])
    (flat_map
       (fun category =>
          let files := sort (markdown docs category) in
          if 0 <? length files then [(category, files)] else [])
       categories).
Proof.
  cbv zeta. induction categories as [|c l IH]; [constructor|].
  cbn [flat_map]. apply Forall_app. split; [|done].
  destruct (sort (markdown docs c)) eqn:Hs; simpl; [constructor|].
  constructor; [|constructor]. simpl. by rewrite Hs.
Qed.

Lemma markdown_ends docs category :
  Forall (fun file => JS.endsWith file ".md" = true) (markdown docs category).
Proof.
  unfold markdown. apply List.Forall_forall.
  by intros file [_ H]%List.filter_In.
Qed.

(** X25.  In an index the sections come in ascending order of category,
    one for each folder of [docs] that holds a markdown file and for no
    other; a section lists the markdown files of its folder, all of them
    and only them, in ascending order. *)
Theorem sections_of_the_index (docs : gmap string entry) :
  ∃ ix,
    generateDocumentationIndex (Some docs) = Some ix
    ∧ StronglySorted String.le (map fst (sections ix))
    ∧ (∀ c, In c (map fst (sections ix))
            ↔ In c (folders docs) ∧ markdown docs c ≠ [])
    ∧ Forall (fun section =>
                section.2 ≠ []
                ∧ section.2 ≡ₚ markdown docs section.1
                ∧ StronglySorted String.le section.2
                ∧ Forall (fun file => JS.endsWith file ".md" = true) section.2)
             (sections ix).
Proof.
  eexists. split; [reflexivity|]. simpl. fold (folders docs).
  pose proof (sort_perm (folders docs)) as Hperm.
  pose proof (sort_StronglySorted (folders docs)) as Hsorted.
  split; [|split].
  - rewrite sections_categories. by apply StronglySorted_filter.
  - intros c. rewrite sections_categories, List.filter_In.
    rewrite <- !list_elem_of_In, Hperm.
    destruct (markdown docs c); simpl; split; intros [? ?]; done.
  - eapply Forall_impl; [apply sections_files|].
    intros [c files] [-> Hne]. simpl in *. split; [done|].
    pose proof (sort_perm (markdown docs c)) as Hp.
    split; [done|]. split; [apply sort_StronglySorted|].
    rewrite Hp. apply markdown_ends.
Qed.


Lemma sections_total docs (categories : list string) :
  sum_list
    (map (fun section : string * list string => length section.2)
       (flat_map
          (fun category =>
             let files := sort (markdown docs category) in
             if 0 <? length files then [(category, files)] else [])
          categories))
  = sum_list (map (fun c => length (markdown docs c)) categories).
Proof.
  cbv zeta. induction categories as [|c l IH]; [done|].
  cbn [flat_map map sum_list]. rewrite map_app, sum_list_with_app, IH.
  pose proof (Permutation_length (sort_perm (markdown docs c))) as Hlen.
  destruct (sort (markdown docs c)) as [|file files]; simpl in *; lia.
Qed.

(** X26.  The number of files in the statistics block is the number of
    links of the index: the sum, over its sections, of the files they
    list. *)
Theorem file_total_counts_the_links (docs : gmap string entry) :
  ∃ ix,
    generateDocumentationIndex (Some docs) = Some ix
    ∧ totalFiles ix
      = sum_list (map (fun section => length section.2) (sections ix)).
Proof.
  eexists. split; [reflexivity|]. simpl.
  by rewrite sections_total, fold_left_sum.
Qed.

Lemma filter_length_all {A} (f : A → bool) (l : list A) :
  length (List.filter f l) ≤ length l
  ∧ (length (List.filter f l) = length l ↔ Forall (fun x => f x = true) l).
Proof.
  induction l as [|x l [IH1 IH2]]; simpl.
  - split; [lia|]. split; [constructor|done].
  - destruct (f x) eqn:Hx; simpl.
    + split; [lia|]. rewrite Forall_cons. split.
      * intros [= H]. split; [done|by apply IH2].
      * intros [_ H]. f_equal. by apply IH2.
    + split; [lia|]. rewrite Forall_cons. split; [lia|].
      intros [H _]. congruence.
Qed.

(** X27.  The number of categories in the statistics block is never less
    than the number of sections of the index, and the two agree exactly
    when every folder of [docs] holds a markdown file. *)
Theorem categories_counted_against_sections (docs : gmap string entry) :
  ∃ ix,
    generateDocumentationIndex (Some docs) = Some ix
    ∧ length (sections ix) ≤ categoryCount ix
    ∧ (length (sections ix) = categoryCount ix
       ↔ ∀ c, In c (folders docs) → markdown docs c ≠ []).
Proof.
  destruct (statistics_of_index docs) as (ix & Hix & _ & Hcount & Hsections).
  exists ix. split; [done|]. rewrite Hcount, Hsections.
  unfold non_empty_categories.
  destruct (filter_length_all
              (fun category => 0 <? length (markdown docs category))
              (folders docs)) as [Hle Heq].
  split; [done|]. rewrite Heq, List.Forall_forall.
  split; intros H c Hc; specialize (H c Hc);
    by destruct (markdown docs c).
Qed.

(** C7, at the failing input.  With [--all] and one source under a
    directory called [constructor], the file is documented and the report
    counts it as generated, so that the guard of the rebuild holds; but
    the grouping of the generated files throws first, and [main] ends
    with status 1 without having rebuilt the index. *)
Theorem index_not_rebuilt_after_a_generation :
  let generated :=
    {| filePath := "src/constructor/Build.js";
       r_docPath := Some "/repo/docs/constructor/Build.md";
       error := None; success := true; r_skipped := false |} in
  let ending := main example_env constructor_discover ["--all"]
                  constructor_world in
  ending.1 = {| exitCode := 1; reported := Some [generated];
                indexed := false |}
  ∧ nodes ending.2 !! "/repo/docs/constructor/Build.md"
    = Some (File "# Documentation")
  ∧ is_generated generated
  ∧ rebuilds_index [generated] = true.
Proof. vm_compute. by repeat split. Qed.

(** ** The classifier beyond code units below 256 *)

Module WideFacts.

Local Abbreviation widen := Wide.widen.
Local Abbreviation Narrow := Wide.Narrow.

Lemma widen_cons c s : widen (String c s) = Narrow c :: widen s.
Proof. reflexivity. Qed.

Lemma eqb_widen s : ∀ t, Wide.eqb (widen s) (widen t) = String.eqb s t.
Proof.
  induction s as [|c s IH]; intros [|d t]; try reflexivity.
  rewrite !widen_cons. simpl. rewrite IH.
  by destruct (Ascii.eqb c d).
Qed.

Lemma map_units_widen f s :
  widen (JS.map_units f s)
  = map (fun u => match u with
                  | Wide.Narrow c => Wide.Narrow (f c)
                  | Wide.DoubleStruckC => Wide.DoubleStruckC
                  end) (widen s).
Proof.
  induction s as [|c s IH]; [done|].
  simpl JS.map_units. rewrite !widen_cons, IH. reflexivity.
Qed.

Lemma normalize_widen s : Wide.normalize (widen s) = widen (normalize s).
Proof.
  unfold Wide.normalize, normalize, Wide.toLowerCase,
    Wide.replace_backslashes, JS.toLowerCase, JS.replace_backslashes.
  by rewrite !map_units_widen.
Qed.

Lemma split_widen sep s :
  Wide.split (Narrow sep) (widen s) = map widen (JS.split sep s).
Proof.
  induction s as [|c s IH]; [done|].
  rewrite widen_cons. simpl. rewrite IH.
  destruct (Ascii.eqb c sep); [done|].
  by destruct (JS.split sep s).
Qed.

Lemma strip_widen w : ∀ s,
  Wide.strip (widen w) (widen s) = widen <$> JS.strip w s.
Proof.
  induction w as [|a w IH]; intros s; [done|].
  destruct s as [|b s]; [done|].
  rewrite !widen_cons. simpl. destruct (Ascii.eqb a b); [apply IH|done].
Qed.

Section Matchers.

Variable k' : list Wide.unit → bool.
Variable k : string → bool.
Hypothesis agree : ∀ r, k' (widen r) = k r.

Lemma lit_widen w s : Wide.lit w k' (widen s) = JS.lit w k s.
Proof.
  unfold Wide.lit, JS.lit. rewrite strip_widen.
  destruct (JS.strip w s); simpl; [apply agree|done].
Qed.

Lemma dot_star_widen s : Wide.dot_star k' (widen s) = JS.dot_star k s.
Proof.
  induction s as [|c s IH].
  - simpl. by rewrite <- (agree EmptyString).
  - rewrite widen_cons. simpl.
    by rewrite <- (agree (String c s)), IH.
Qed.

Lemma opt_widen c s : Wide.opt c k' (widen s) = JS.opt c k s.
Proof.
  destruct s as [|b s]; simpl.
  - apply (agree EmptyString).
  - by rewrite <- (agree (String b s)), <- (agree s).
Qed.

Lemma test_widen s : Wide.test k' (widen s) = JS.test k s.
Proof.
  induction s as [|c s IH].
  - simpl. by rewrite <- (agree EmptyString).
  - rewrite widen_cons. simpl. by rewrite <- (agree (String c s)), IH.
Qed.

End Matchers.

Lemma eos_widen s : Wide.eos (widen s) = JS.eos s.
Proof. by destruct s. Qed.

Lemma segment_widen name s :
  Wide.test (Wide.segment name) (widen s) = JS.test (segment name) s.
Proof.
  apply test_widen. intros r. unfold Wide.segment, segment.
  apply lit_widen. intros r1. apply lit_widen. intros r2.
  by apply lit_widen.
Qed.

Lemma app_file_widen name s :
  Wide.test (Wide.app_file name) (widen s) = JS.test (app_file name) s.
Proof.
  apply test_widen. intros r. unfold Wide.app_file, app_file.
  apply lit_widen. intros r1. apply dot_star_widen. intros r2.
  apply lit_widen. intros r3. apply lit_widen. intros r4.
  apply opt_widen. apply eos_widen.
Qed.

Lemma first_match_widen n :
  Wide.folder <$> Wide.first_match (widen n) = folder <$> first_match n.
Proof.
  unfold Wide.first_match, first_match, Wide.folderMappings, folderMappings.
  cbn [List.find Wide.pattern pattern].
  rewrite !segment_widen, !app_file_widen.
  repeat (match goal with
          | |- context [if ?b then _ else _] => destruct b; [reflexivity|]
          end).
  reflexivity.
Qed.

Lemma fallback_widen n : Wide.fallback (widen n) = widen (fallback n).
Proof.
  unfold Wide.fallback, fallback.
  rewrite split_widen, length_map.
  destruct (1 <? length (JS.split JS.slash n)); [|done].
  change (@nil Wide.unit) with (widen EmptyString).
  rewrite map_nth, !eqb_widen.
  by destruct (_ && _).
Qed.

(** on strings of code units below 256 the two classifiers agree *)
Lemma classifier_widen s :
  Wide.getDocumentationFolder (widen s) = widen (getDocumentationFolder s).
Proof.
  unfold Wide.getDocumentationFolder, getDocumentationFolder.
  rewrite normalize_widen.
  pose proof (first_match_widen (normalize s)) as H.
  destruct (Wide.first_match _) as [m'|], (first_match _) as [m|];
    simpl in H; try discriminate.
  - by injection H as ->.
  - apply fallback_widen.
Qed.

End WideFacts.

(** C9 as stated fails beyond the code units below 256: a capital
    letter that lowercasing leaves alone stays in the category.  The
    source under the directory named U+2102 is classified by the
    fallback, under that very name. *)
Lemma capital_category_counterexample :
  Wide.getDocumentationFolder double_struck_path = [Wide.DoubleStruckC]
  ∧ Wide.is_upper Wide.DoubleStruckC = true
  ∧ Wide.no_upper (Wide.getDocumentationFolder double_struck_path) = false.
Proof. by vm_compute. Qed.


(** ** The fallback, on the path as it is written *)

Lemma plain_unit c :
  is_separator c = false →
  JS.lower_unit (JS.unbackslash c) = JS.lower_unit c
  ∧ Ascii.eqb (JS.lower_unit c) JS.slash = false.
Proof. by destruct c as [[] [] [] [] [] [] [] []]. Qed.

Lemma normalize_plain s :
  no_separator s = true →
  normalize s = JS.toLowerCase s ∧ no_slash (normalize s) = true.
Proof.
  unfold no_separator, no_slash. induction s as [|c s IH]; [done|].
  cbn [all_units]. intros [Hc Hs]%andb_true_iff. apply negb_true_iff in Hc.
  destruct (IH Hs) as [IH1 IH2]. destruct (plain_unit c Hc) as [H1 H2].
  split.
  - by rewrite normalize_cons, IH1, H1.
  - rewrite normalize_cons, H1. cbn [all_units]. by rewrite H2, IH2.
Qed.

Lemma fallback_written pre parent sep file :
  is_separator sep = true →
  pre = EmptyString
  ∨ (∃ q sep', pre = q +:+ String sep' EmptyString
               ∧ is_separator sep' = true) →
  no_separator parent = true →
  no_separator file = true →
  fallback (normalize (pre +:+ parent +:+ String sep file))
  = if reserved (JS.toLowerCase parent) then "general"
    else JS.toLowerCase parent.
Proof.
  intros Hsep Hpre Hparent Hfile.
  destruct (normalize_plain parent Hparent) as [Hlow Hp].
  destruct (normalize_plain file Hfile) as [_ Hf].
  rewrite !normalize_app, normalize_cons, separator_normalized by done.
  rewrite <- Hlow.
  apply (fallback_decomposed (normalize pre) (normalize parent)
           (normalize file)); [|done..].
  destruct Hpre as [->|(q & sep' & -> & Hsep')]; [by left|].
  right. exists (normalize q).
  by rewrite normalize_app, normalize_cons, separator_normalized.
Qed.

(** C6 (amended).  When no rule matches a path written
    [...parent<sep>file], where [parent] and [file] hold no separator
    and [parent] opens the path or follows a separator, the category is
    the name [parent] in lower case; unless that lowercased name is
    empty or one of the reserved names "src" and "app": then it is
    "general".  A path without any separator gives "general" too. *)
Theorem fallback_is_lowercased_parent_or_general (filePath : string) :
  first_match (normalize filePath) = None →
  (∀ pre parent sep file,
      filePath = pre +:+ parent +:+ String sep file →
      is_separator sep = true →
      pre = EmptyString
      ∨ (∃ q sep', pre = q +:+ String sep' EmptyString
                   ∧ is_separator sep' = true) →
      no_separator parent = true →
      no_separator file = true →
      getDocumentationFolder filePath
      = if reserved (JS.toLowerCase parent) then "general"
        else JS.toLowerCase parent)
  ∧ (no_separator filePath = true →
     getDocumentationFolder filePath = "general").
Proof.
  intros Hnone. unfold getDocumentationFolder. rewrite Hnone. split.
  - intros pre parent sep file -> Hsep Hpre Hp Hf.
    by apply fallback_written.
  - intros Hn. destruct (normalize_plain filePath Hn) as [_ Hs].
    unfold fallback. by rewrite split_no_slash.
Qed.

Lemma fallback_is_lowercased_parent_or_general_witness :
  first_match (normalize "Src\Weird\Thing.js") = None
  ∧ getDocumentationFolder "Src\Weird\Thing.js" = "weird"
  ∧ getDocumentationFolder "x/SRC/file.js" = "general"
  ∧ getDocumentationFolder "Thing.js" = "general".
Proof.
  split; [reflexivity|]. split; [|split].
  - apply (proj1 (fallback_is_lowercased_parent_or_general
                    "Src\Weird\Thing.js" eq_refl)
             "Src\" "Weird" JS.backslash "Thing.js");
      [reflexivity|reflexivity| |reflexivity..].
    right. by exists "Src", JS.backslash.
  - apply (proj1 (fallback_is_lowercased_parent_or_general
                    "x/SRC/file.js" eq_refl)
             "x/" "SRC" JS.slash "file.js");
      [reflexivity|reflexivity| |reflexivity..].
    right. by exists "x", JS.slash.
  - by apply (proj2 (fallback_is_lowercased_parent_or_general
                       "Thing.js" eq_refl)).
Defined.

(** C6 as stated fails on the casing: the parent name comes back in
    lower case, and it is the lowercased name that is compared with the
    reserved ones. *)
Lemma parent_name_counterexample :
  (first_match (normalize "src/Weird/Thing.js") = None
   ∧ "src/Weird/Thing.js" = "src/" +:+ "Weird" +:+ "/" +:+ "Thing.js"
   ∧ reserved "Weird" = false
   ∧ getDocumentationFolder "src/Weird/Thing.js" ≠ "Weird")
  ∧ (first_match (normalize "x/SRC/file.js") = None
     ∧ "x/SRC/file.js" = "x/" +:+ "SRC" +:+ "/" +:+ "file.js"
     ∧ reserved "SRC" = false
     ∧ getDocumentationFolder "x/SRC/file.js" ≠ "SRC").
Proof. repeat split; by vm_compute. Qed.

